(** * Port monitor: a shallow embedding of the acquisition, classification,
    anomaly-detection and retention code, and the properties checked on it.

    Source files embedded here:
    - [server/data/portDatabase.js]: [commonPorts], [dangerousPorts],
      [getPortInfo], [generateSecurityAlert];
    - the [SecurityAnalyzer] class: whitelist store, [analyzePorts],
      [detectPortScanning];
    - the [PortMonitor] class: [parsePortOutput], [identifyPortService],
      [getActivePorts];
    - the [Database] class: [cleanup], [resolveAlert];
    - the security middleware: [sanitizeInput], [sanitizeMiddleware], and
      the two whitelist routes of [server/index.js];
    - further methods of [PortMonitor] ([clearCache],
      [parseConnectionOutput], [getActiveConnections]) and of
      [SecurityAnalyzer] ([analyzeConnection]).

    Conventions.  JavaScript numbers that hold ports, pids and millisecond
    clock readings are integers and are modelled by [Z] (exact below 2^53).
    Strings are [string]; the regular-expression engine and the text
    helpers work on the list of their characters.  Only the ASCII part of
    [toLowerCase], [toUpperCase], [\s] and the [/i] flag is modelled.
    A value that is [undefined] or [null] in the source is [None]. *)

From Stdlib Require Import ZArith Ascii List Lia Bool Sorting.Sorted.
From stdpp Require Import gmap strings list pretty.

(** ** JavaScript primitives used by the embedded code *)

Module Js.

Definition chars (s : string) : list ascii := String.list_ascii_of_string s.
Definition str (l : list ascii) : string := String.string_of_list_ascii l.

(** The double-quote character, and a string holding just it. *)
Definition dquote : ascii := "034"%char.
Definition dq : string := String dquote "".

(** Truthiness of a string: only the empty string is falsy. *)
Definition truthy (s : string) : bool :=
  match s with EmptyString => false | String _ _ => true end.

(** [s || d] on strings. *)
Definition or_else (s d : string) : string := if truthy s then s else d.

(** Truthiness of a number that may be [null]/[undefined]: [0] is falsy. *)
Definition truthy_num (n : option Z) : bool :=
  match n with Some v => negb (v =? 0)%Z | None => false end.

Definition is_digit (c : ascii) : bool :=
  let n := nat_of_ascii c in (48 <=? n)%nat && (n <=? 57)%nat.

(** White space of [\s] and of [String.prototype.trim] (ASCII part):
    TAB, LF, VT, FF, CR and SPACE. *)
Definition is_space (c : ascii) : bool :=
  let n := nat_of_ascii c in ((9 <=? n)%nat && (n <=? 13)%nat) || (n =? 32)%nat.

Definition lower_char (c : ascii) : ascii :=
  let n := nat_of_ascii c in
  if (65 <=? n)%nat && (n <=? 90)%nat then ascii_of_nat (n + 32) else c.

Definition upper_char (c : ascii) : ascii :=
  let n := nat_of_ascii c in
  if (97 <=? n)%nat && (n <=? 122)%nat then ascii_of_nat (n - 32) else c.

Definition toLowerCase (s : string) : string := str (map lower_char (chars s)).
Definition toUpperCase (s : string) : string := str (map upper_char (chars s)).

(** [s.includes(sub)]: [sub] occurs in [s] at some position. *)
Fixpoint includes (s sub : string) : bool :=
  String.prefix sub s ||
  match s with
  | EmptyString => false
  | String _ s' => includes s' sub
  end.

(** [s.split(sep)] for a one-character separator. *)
Fixpoint split (sep : ascii) (s : list ascii) : list (list ascii) :=
  match s with
  | [] => [[]]
  | c :: s' =>
      if Ascii.eqb c sep then [] :: split sep s'
      else match split sep s' with
           | [] => [[c]]
           | w :: ws => (c :: w) :: ws
           end
  end.

(** [line.trim()] is truthy iff the line has a character that is not
    white space. *)
Definition trim_truthy (l : list ascii) : bool := existsb (fun c => negb (is_space c)) l.

(** [parseInt(s)] with no radix; [None] is [NaN]. *)
Definition digit_value (radix : Z) (c : ascii) : option Z :=
  let n := Z.of_nat (nat_of_ascii c) in
  let v := (if (48 <=? n) && (n <=? 57) then n - 48
            else if (97 <=? n) && (n <=? 122) then n - 87
            else if (65 <=? n) && (n <=? 90) then n - 55
            else 36)%Z in
  if (v <? radix)%Z then Some v else None.

Fixpoint parse_digits (radix : Z) (acc : option Z) (l : list ascii) : option Z :=
  match l with
  | [] => acc
  | c :: l' =>
      match digit_value radix c with
      | Some d => parse_digits radix (Some (default 0 acc * radix + d)%Z) l'
      | None => acc
      end
  end.

Fixpoint skip_space (l : list ascii) : list ascii :=
  match l with
  | c :: l' => if is_space c then skip_space l' else l
  | [] => []
  end.

Definition parseInt (s : string) : option Z :=
  let l := skip_space (chars s) in
  let '(sign, l) :=
    match l with
    | c :: l' => if Ascii.eqb c "-" then ((-1)%Z, l')
                 else if Ascii.eqb c "+" then (1%Z, l') else (1%Z, l)
    | [] => (1%Z, l)
    end in
  let '(radix, l) :=
    match l with
    | c :: x :: l' =>
        if Ascii.eqb c "0" && (Ascii.eqb x "x" || Ascii.eqb x "X")
        then (16%Z, l') else (10%Z, l)
    | _ => (10%Z, l)
    end in
  (fun v => sign * v)%Z <$> parse_digits radix None l.

(** [Array.prototype.sort] with the comparator [(a, b) => key a - key b]:
    a stable sort by [key], written as an insertion sort. *)
Section Sort.
Context {A : Type} (key : A -> Z).

Fixpoint insert_by (x : A) (l : list A) : list A :=
  match l with
  | [] => [x]
  | y :: l' => if (key y <? key x)%Z then y :: insert_by x l' else x :: l
  end.

Fixpoint sort_by (l : list A) : list A :=
  match l with
  | [] => []
  | x :: l' => insert_by x (sort_by l')
  end.
End Sort.

End Js.

(** ** The fragment of ECMAScript regular expressions used by the source

    A backtracking matcher in continuation-passing style: alternatives are
    tried left to right, [+] is greedy, a capture group records the text its
    body consumed, and [search] tries every start position from the left. *)

Module Regex.

Inductive re : Type :=
| Eps
| Lit (c : ascii)
| LitI (c : ascii)
| Class (p : ascii -> bool)
| Plus (p : ascii -> bool)
| Cat (r1 r2 : re)
| Or (r1 r2 : re)
| Group (i : nat) (r : re).

Definition captures : Type := list (nat * list ascii).

(** [C+] for a character class [C]: take one character of the class, then
    as many more as possible, giving characters back one at a time when
    the rest of the pattern fails. *)
Fixpoint plus_run {R : Type} (p : ascii -> bool) (s : list ascii)
    (k : list ascii -> option R) : option R :=
  match s with
  | [] => None
  | c :: s' =>
      if p c then
        match plus_run p s' k with
        | Some r => Some r
        | None => k s'
        end
      else None
  end.

Fixpoint run {R : Type} (r : re) (s : list ascii) (caps : captures)
    (k : list ascii -> captures -> option R) : option R :=
  match r with
  | Eps => k s caps
  | Lit a =>
      match s with
      | c :: s' => if Ascii.eqb c a then k s' caps else None
      | [] => None
      end
  | LitI a =>
      match s with
      | c :: s' => if Ascii.eqb (Js.upper_char c) (Js.upper_char a) then k s' caps else None
      | [] => None
      end
  | Class p =>
      match s with
      | c :: s' => if p c then k s' caps else None
      | [] => None
      end
  | Plus p => plus_run p s (fun s' => k s' caps)
  | Cat r1 r2 => run r1 s caps (fun s' caps' => run r2 s' caps' k)
  | Or r1 r2 =>
      match run r1 s caps k with
      | Some x => Some x
      | None => run r2 s caps k
      end
  | Group i r0 =>
      run r0 s caps
        (fun s' caps' => k s' ((i, take (length s - length s') s) :: caps'))
  end.

(** The first match, scanning start positions left to right. *)
Fixpoint search (r : re) (s : list ascii) : option captures :=
  match run r s [] (fun _ caps => Some caps) with
  | Some caps => Some caps
  | None =>
      match s with
      | [] => None
      | _ :: s' => search r s'
      end
  end.

(** [line.match(r)]: the captures of the first match, or [None]. *)
Definition exec (r : re) (line : string) : option captures := search r (Js.chars line).

(** [match[i]] for [i >= 1]; [None] when the group took no part. *)
Definition group (i : nat) (m : captures) : option string :=
  (fun e => Js.str (snd e)) <$> List.find (fun e => Nat.eqb (fst e) i) m.

(** [r.test(s)]. *)
Definition test (r : re) (s : string) : bool := bool_decide (is_Some (exec r s)).

(** Building blocks for writing the source's patterns. *)
Fixpoint lits (l : list ascii) : re :=
  match l with
  | [] => Eps
  | [c] => Lit c
  | c :: l' => Cat (Lit c) (lits l')
  end.
Definition text (s : string) : re := lits (Js.chars s).

Fixpoint litsI (l : list ascii) : re :=
  match l with
  | [] => Eps
  | [c] => LitI c
  | c :: l' => Cat (LitI c) (litsI l')
  end.
Definition textI (s : string) : re := litsI (Js.chars s).

Fixpoint seq (rs : list re) : re :=
  match rs with
  | [] => Eps
  | [r] => r
  | r :: rs' => Cat r (seq rs')
  end.

Fixpoint alt (rs : list re) : re :=
  match rs with
  | [] => Eps
  | [r] => r
  | r :: rs' => Or r (alt rs')
  end.

Fixpoint rep (n : nat) (r : re) : re :=
  match n with
  | O => Eps
  | S O => r
  | S n' => Cat r (rep n' r)
  end.

Definition digit : ascii -> bool := Js.is_digit.                 (* \d *)
Definition space : ascii -> bool := Js.is_space.                 (* \s *)
Definition nonspace (c : ascii) : bool := negb (Js.is_space c).  (* \S *)
(** The class of every character but the double quote. *)
Definition notquote (c : ascii) : bool := negb (Ascii.eqb c Js.dquote).

End Regex.

(** ** Enumerations shared by the classifier and the detector *)

Inductive Severity : Set := low | medium | high | critical.

Inductive AlertType : Set :=
| info | dangerous_port | unknown_port | high_risk_service
| dev_service_exposed | process_mismatch
| suspicious_process | privilege_violation | port_scan.

Global Instance Severity_eq_dec : EqDecision Severity.
Proof. solve_decision. Defined.

Global Instance AlertType_eq_dec : EqDecision AlertType.
Proof. solve_decision. Defined.

(** ** [server/data/portDatabase.js] *)

Module PortDatabase.
Local Open Scope Z_scope.

(** One value of the [commonPorts] object. *)
Record PortEntry : Type := mkEntry {
  e_service : string;
  e_description : string;
  e_protocol : string;
  e_risk : Severity;
  e_category : string;
  e_recommendations : list string;
  e_commonProcesses : list string
}.

(** The object literal [commonPorts], property by property in source
    order.  The key [22] is written twice; as in any object literal the
    later property replaces the earlier one, which [commonPorts] below
    reproduces by keeping the last binding of a key. *)
Definition commonPorts_literal : list (Z * PortEntry) := [
  (80, mkEntry "HTTP" "Hypertext Transfer Protocol - Unencrypted web traffic"
         "tcp" medium "web"
         ["Use HTTPS (Port 443) instead of HTTP";
          "Implement Web Application Firewall (WAF)";
          "Monitor for unusual requests"]
         ["nginx"; "apache2"; "httpd"; "lighttpd"]);
  (443, mkEntry "HTTPS" "HTTP Secure - Encrypted web traffic"
         "tcp" low "web"
         ["Ensure that strong TLS versions are used";
          "Use valid SSL/TLS certificates";
          "Enable HTTP Strict Transport Security (HSTS)"]
         ["nginx"; "apache2"; "httpd"]);
  (8080, mkEntry "HTTP-Alt" "Alternative HTTP Port - often for Development or Proxies"
         "tcp" medium "web"
         ["Restrict access to necessary IPs";
          "Use authentication";
          "Monitor unauthorized access"]
         ["tomcat"; "jetty"; "node"; "python"]);
  (8000, mkEntry "HTTP-Dev" "Development HTTP Server"
         "tcp" high "development"
         ["Use only for development";
          "Do not use in production environments";
          "Configure firewall rules for external access"]
         ["python"; "node"; "ruby"; "php"]);
  (22, mkEntry "SSH" "Secure Shell - Encrypted Remote-access"
         "tcp" medium "remote"
         ["Use key-based authentication";
          "Disable root login";
          "Change default port";
          "Implement Fail2Ban"]
         ["sshd"; "openssh-server"]);
  (23, mkEntry "Telnet" "Telnet - INSECURE plaintext Remote-access"
         "tcp" critical "remote"
         ["IMMEDIATELY DISABLE - Use SSH instead";
          "Change all passwords";
          "Check network for compromise"]
         ["telnetd"; "xinetd"]);
  (3389, mkEntry "RDP" "Remote Desktop Protocol - Windows Remote Desktop"
         "tcp" high "remote"
         ["Use VPN for external access";
          "Enable Network Level Authentication";
          "Use strong passwords";
          "Monitor login attempts"]
         ["TermService"; "rdp"]);
  (3306, mkEntry "MySQL" "MySQL/MariaDB Database"
         "tcp" high "database"
         ["Use strong passwords";
          "Restrict network access";
          "Enable SSL/TLS";
          "Regular Security Updates"]
         ["mysqld"; "mariadb"]);
  (5432, mkEntry "PostgreSQL" "PostgreSQL Database"
         "tcp" high "database"
         ["Configure pg_hba.conf secure";
          "Use SSL connections";
          "Restrict network access";
          "Enable Logging"]
         ["postgres"; "postmaster"]);
  (27017, mkEntry "MongoDB" "MongoDB NoSQL Database"
         "tcp" high "database"
         ["Enable authentication";
          "Use SSL/TLS";
          "Restrict network access";
          "Regular Backups"]
         ["mongod"]);
  (6379, mkEntry "Redis" "Redis In-Memory Database/Cache"
         "tcp" high "database"
         ["Enable authentication (requirepass)";
          "Bind only to localhost";
          "Use firewall rules";
          "Disable dangerous commands"]
         ["redis-server"]);
  (53, mkEntry "DNS" "Domain Name System"
         "both" medium "network"
         ["Restrict recursive queries";
          "Implement DNS filtering";
          "Monitor DNS tunneling";
          "Use DNS over HTTPS/TLS"]
         ["named"; "dnsmasq"; "systemd-resolved"; "unbound"]);
  (21, mkEntry "FTP" "File Transfer Protocol - INSECURE"
         "tcp" high "file"
         ["Use SFTP or FTPS instead";
          "Restrict to internal networks";
          "Monitor file transfers";
          "Use strong authentication"]
         ["vsftpd"; "proftpd"; "ftpd"]);
  (22, mkEntry "SFTP" "SSH File Transfer Protocol - Secure file transfer"
         "tcp" low "file"
         ["Use key-based authentication";
          "Restrict directory access (chroot)";
          "Monitor file transfers"]
         ["sshd"]);
  (25, mkEntry "SMTP" "Simple Mail Transfer Protocol"
         "tcp" medium "mail"
         ["Use STARTTLS";
          "Implement SPF/DKIM/DMARC";
          "Monitor for spam/relay abuse";
          "Enable authentication"]
         ["postfix"; "sendmail"; "exim"]);
  (587, mkEntry "SMTP-Auth" "SMTP with authentication (Submission)"
         "tcp" low "mail"
         ["Enforce STARTTLS";
          "Use strong authentication";
          "Implement rate limiting"]
         ["postfix"; "exim"]);
  (993, mkEntry "IMAPS" "IMAP over SSL - Secure mail retrieval"
         "tcp" low "mail"
         ["Use strong TLS versions";
          "Implement two-factor authentication";
          "Monitor login attempts"]
         ["dovecot"; "courier-imap"]);
  (3000, mkEntry "Node.js Dev" "Node.js Development Server"
         "tcp" medium "development"
         ["Use only for development";
          "Restrict network access";
          "Use environment variables for secrets"]
         ["node"; "npm"; "yarn"]);
  (9090, mkEntry "Prometheus" "Prometheus Monitoring"
         "tcp" medium "monitoring"
         ["Restrict access to monitoring network";
          "Use authentication";
          "Monitor sensitive metrics"]
         ["prometheus"]);
  (3001, mkEntry "Grafana" "Grafana Dashboard"
         "tcp" medium "monitoring"
         ["Use strong admin passwords";
          "Enable HTTPS";
          "Restrict dashboard access"]
         ["grafana-server"]);
  (161, mkEntry "SNMP" "Simple Network Management Protocol"
         "udp" high "network"
         ["Use SNMPv3 with encryption";
          "Change default community strings";
          "Restrict access via firewall";
          "Monitor SNMP queries"]
         ["snmpd"]);
  (5353, mkEntry "mDNS" "Multicast DNS (Bonjour/Avahi)"
         "udp" low "network"
         ["Disable if not needed";
          "Restrict to local networks";
          "Monitor mDNS-traffic"]
         ["avahi-daemon"; "mDNSResponder"]);
  (135, mkEntry "MS-RPC" "Microsoft RPC Endpoint Mapper"
         "tcp" critical "windows"
         ["Block external access";
          "Keep Windows-Updates up to date";
          "Monitor RPC-traffic";
          "Use Windows Firewall"]
         ["svchost.exe"]);
  (445, mkEntry "SMB" "Server Message Block - Windows file sharing"
         "tcp" critical "file"
         ["Block external access IMMEDIATELY";
          "Disable SMBv1";
          "Use strong authentication";
          "Monitor file shares"]
         ["smbd"; "System"])
].

(** [commonPorts[port]]. *)
Definition commonPorts (port : Z) : option PortEntry :=
  fold_left (fun found kv => if fst kv =? port then Some (snd kv) else found)
            commonPorts_literal None.

Definition dangerousPorts : list Z :=
  [23; 135; 139; 445; 1433; 1521; 2049; 3389; 5900; 5984; 6000; 8080; 8888; 9200].
Definition developmentPorts : list Z :=
  [3000; 3001; 4000; 5000; 8000; 8080; 8888; 9000].
Definition databasePorts : list Z :=
  [1433; 1521; 3306; 5432; 6379; 27017; 28017].

(** [list.includes(port)] on numbers. *)
Definition includes (l : list Z) (x : Z) : bool := existsb (Z.eqb x) l.

(** The object returned by [getPortInfo]; [commonProcesses] is present
    only for a known port. *)
Record PortInfo : Type := mkInfo {
  service : string;
  description : string;
  pi_protocol : string;
  risk : Severity;
  category : string;
  recommendations : list string;
  commonProcesses : option (list string);
  isKnown : bool;
  isDangerous : bool;
  isDevelopment : bool;
  isDatabase : bool;
  processMatch : bool
}.

Definition getPortInfo (port : Z) (protocol process : string) : PortInfo :=
  match commonPorts port with
  | Some e =>
      {| service := e_service e;
         description := e_description e;
         pi_protocol := e_protocol e;
         risk := e_risk e;
         category := e_category e;
         recommendations := e_recommendations e;
         commonProcesses := Some (e_commonProcesses e);
         isKnown := true;
         isDangerous := includes dangerousPorts port;
         isDevelopment := includes developmentPorts port;
         isDatabase := includes databasePorts port;
         processMatch :=
           existsb (fun p => Js.truthy process &&
                             Js.includes (Js.toLowerCase process) (Js.toLowerCase p))
                   (e_commonProcesses e) |}
  | None =>
      (* Unknown port analysis *)
      let risk0 := low in
      let category0 := "unknown" in
      let recs0 := ["Identify the service"; "Check if the port is needed"] in
      let '(risk1, recs1) :=
        if port <? 1024
        then (medium, recs0 ++ ["System port - check privileged processes"])
        else (risk0, recs0) in
      let '(risk2, category2, recs2) :=
        if port >=? 49152
        then (low, "dynamic", recs1 ++ ["Dynamic port - temporary connection"])
        else (risk1, category0, recs1) in
      let '(risk3, recs3) :=
        if includes dangerousPorts port
        then (critical, recs2 ++ ["CRITICAL: Known dangerous port"])
        else (risk2, recs2) in
      {| service := "Unknown";
         description := "Unknown service on port " +:+ pretty port;
         pi_protocol := protocol;
         risk := risk3;
         category := category2;
         recommendations := recs3;
         commonProcesses := None;
         isKnown := false;
         isDangerous := includes dangerousPorts port;
         isDevelopment := includes developmentPorts port;
         isDatabase := includes databasePorts port;
         processMatch := false |}
  end.

(** The object returned by [generateSecurityAlert].  [timestamp] is the
    clock reading that [new Date().toISOString()] renders. *)
Record SecurityAlert : Type := mkAlert {
  type : AlertType;
  severity : Severity;
  message : string;
  port : Z;
  process : string;
  address : string;
  sa_service : string;
  sa_category : string;
  sa_recommendations : list string;
  portInfo : PortInfo;
  timestamp : Z
}.

Definition generateSecurityAlert (port : Z) (protocol process address : string)
    (clock : Z) : SecurityAlert :=
  let portInfo := getPortInfo port protocol process in
  let '(severity, type, message) :=
    if isDangerous portInfo then
      (critical, dangerous_port,
       "CRITICAL: Dangerous service " +:+ service portInfo +:+
       " detected on port " +:+ pretty port)
    else if negb (isKnown portInfo) then
      (medium, unknown_port,
       "Unknown service on port " +:+ pretty port +:+
       " (" +:+ Js.toUpperCase protocol +:+ ")")
    else if bool_decide (risk portInfo = high) then
      (high, high_risk_service,
       "High-risk service " +:+ service portInfo +:+ " on port " +:+ pretty port)
    else if isDevelopment portInfo
            && negb (String.eqb address "127.0.0.1")
            && negb (String.eqb address "localhost") then
      (high, dev_service_exposed,
       "Development service " +:+ service portInfo +:+
       " exposed to external connections")
    else if negb (processMatch portInfo) && Js.truthy process then
      (medium, process_mismatch,
       "Unexpected process " +:+ Js.dq +:+ process +:+ Js.dq +:+ " on " +:+
       service portInfo +:+ " port " +:+ pretty port)
    else
      (low, info,
       service portInfo +:+ " service active on port " +:+ pretty port) in
  {| type := type;
     severity := severity;
     message := message;
     port := port;
     process := Js.or_else process "unknown";
     address := address;
     sa_service := service portInfo;
     sa_category := category portInfo;
     sa_recommendations := recommendations portInfo;
     portInfo := portInfo;
     timestamp := clock |}.

End PortDatabase.

(** ** Port records

    The objects pushed by [parsePortOutput] and handed to the analyzer (the
    scheduler adds [container] and [containerId], which no code below
    reads).  [process] and [address] are strings, [pid] is a number or
    [null], [timestamp] is the clock reading rendered by [toISOString]. *)

Record PortRecord : Type := mkPort {
  port : Z;
  protocol : string;
  process : string;
  pid : option Z;
  address : string;
  timestamp : Z
}.

(** The clock: [clock n] is the value of the [n]-th reading ([Date.now()] or
    [new Date()]) made since the modelled call started. *)
Definition Clock : Type := nat -> Z.

(** ** The [SecurityAnalyzer] class *)

Module SecurityAnalyzer.
Local Open Scope Z_scope.

(** The document kept in [whitelist.json]. *)
Record Whitelist : Type := mkWhitelist {
  ports : list Z;
  processes : list string
}.

(** The fields of [details] in a classifier alert. *)
Record Details : Type := mkDetails {
  d_description : string;
  d_risk : Severity;
  d_isDangerous : bool;
  d_isDevelopment : bool;
  d_isDatabase : bool;
  d_processMatch : bool
}.

(** The three shapes of object that [analyzePorts] puts in [alerts]. *)
Inductive Alert : Type :=
| DetailedAlert (type : AlertType) (severity : Severity) (message : string)
    (port : Z) (process address service category : string)
    (recommendations : list string) (portInfo : PortDatabase.PortInfo)
    (timestamp : Z) (details : Details)
| ProcessAlert (type : AlertType) (severity : Severity) (message : string)
    (port : Z) (process : string) (recommendations : list string)
| ScanAlert (type : AlertType) (severity : Severity) (message : string)
    (ports : list Z).

Definition alert_type (a : Alert) : AlertType :=
  match a with
  | DetailedAlert t _ _ _ _ _ _ _ _ _ _ _ => t
  | ProcessAlert t _ _ _ _ _ => t
  | ScanAlert t _ _ _ => t
  end.

Definition alert_severity (a : Alert) : Severity :=
  match a with
  | DetailedAlert _ s _ _ _ _ _ _ _ _ _ _ => s
  | ProcessAlert _ s _ _ _ _ => s
  | ScanAlert _ s _ _ => s
  end.

(** The instance state: the whitelist file ([None] when it is missing or
    unreadable) and [this.connectionHistory]. *)
Record State : Type := mkState {
  whitelistFile : option Whitelist;
  connectionHistory : gmap string Z
}.

(** [new SecurityAnalyzer()] on a host with no whitelist file yet. *)
Definition initial : State := mkState None ∅.

Record SuspiciousPattern : Type := mkPattern {
  pattern : Regex.re;
  p_severity : Severity;
  reason : string
}.

Definition suspiciousPatterns : list SuspiciousPattern := [
  mkPattern (Regex.Or (Regex.textI "nc") (Regex.textI "netcat")) high "Potential backdoor";
  mkPattern (Regex.Or (Regex.textI "miner") (Regex.textI "xmrig")) critical "Crypto miner detected";
  mkPattern (Regex.textI "telnet") medium "Insecure protocol";
  mkPattern (Regex.textI "torrent") low "P2P activity"
].

Definition portScanThreshold : nat := 10.

Definition loadWhitelist (st : State) : Whitelist :=
  match whitelistFile st with
  | Some w => w
  | None => mkWhitelist [] []
  end.

Definition saveWhitelist (w : Whitelist) (st : State) : State :=
  mkState (Some w) (connectionHistory st).

Definition includes_str (l : list string) (x : string) : bool :=
  existsb (String.eqb x) l.

(** [addToWhitelist(port, process)]; [process] is [None] when the caller
    passed none. *)
Definition addToWhitelist (port : Z) (process : option string) (st : State) : State :=
  let whitelist := loadWhitelist st in
  let ports1 :=
    if negb (PortDatabase.includes (ports whitelist) port)
    then ports whitelist ++ [port] else ports whitelist in
  let processes1 :=
    match process with
    | Some p =>
        if Js.truthy p && negb (includes_str (processes whitelist) p)
        then processes whitelist ++ [p] else processes whitelist
    | None => processes whitelist
    end in
  saveWhitelist (mkWhitelist ports1 processes1) st.

Definition removeFromWhitelist (port : Z) (st : State) : State :=
  let whitelist := loadWhitelist st in
  saveWhitelist
    (mkWhitelist (List.filter (fun p => negb (p =? port)) (ports whitelist))
                 (processes whitelist))
    st.

(** The guard of the [continue] at the head of the loop of [analyzePorts]. *)
Definition whitelisted (whitelist : Whitelist) (r : PortRecord) : bool :=
  PortDatabase.includes (ports whitelist) (port r)
  || includes_str (processes whitelist) (process r).

(** The array [portAlerts] built by one iteration that was not skipped;
    [now] is the clock reading taken by [generateSecurityAlert]. *)
Definition portAlerts (r : PortRecord) (now : Z) : list Alert :=
  let securityAlert :=
    PortDatabase.generateSecurityAlert
      (port r) (Js.or_else (protocol r) "tcp") (process r)
      (Js.or_else (address r) "unknown") now in
  let pinfo := PortDatabase.portInfo securityAlert in
  let detailedAlert :=
    DetailedAlert
      (PortDatabase.type securityAlert)
      (PortDatabase.severity securityAlert)
      (PortDatabase.message securityAlert)
      (port r)
      (Js.or_else (process r) "unknown")
      (Js.or_else (address r) "unknown")
      (PortDatabase.sa_service securityAlert)
      (PortDatabase.sa_category securityAlert)
      (PortDatabase.sa_recommendations securityAlert)
      pinfo
      (PortDatabase.timestamp securityAlert)
      (mkDetails (PortDatabase.description pinfo) (PortDatabase.risk pinfo)
                 (PortDatabase.isDangerous pinfo) (PortDatabase.isDevelopment pinfo)
                 (PortDatabase.isDatabase pinfo) (PortDatabase.processMatch pinfo)) in
  let suspicious :=
    flat_map
      (fun sp =>
         if Js.truthy (process r) && Regex.test (pattern sp) (process r)
         then [ProcessAlert suspicious_process (p_severity sp)
                 (reason sp +:+ ": " +:+ process r +:+ " on port " +:+ pretty (port r))
                 (port r) (process r)
                 ["Investigate the process further"; "Check for malware";
                  "Monitor network traffic"]]
         else [])
      suspiciousPatterns in
  let privilege :=
    if (port r <? 1024) && negb (String.eqb (process r) "root") && Js.truthy_num (pid r)
    then [ProcessAlert privilege_violation high
            ("Non-root process " +:+ process r +:+ " using privileged port " +:+
             pretty (port r))
            (port r) (process r)
            ["Check process permissions"; "Check for privilege escalation";
             "Analyze system security"]]
    else [] in
  detailedAlert :: suspicious ++ privilege.

(** The [for (const port of ports)] loop of [analyzePorts]: [alerts] is
    the accumulator, [n] counts the clock readings made so far. *)
Fixpoint analyzeLoop (whitelist : Whitelist) (clock : Clock) (n : nat)
    (records : list PortRecord) (alerts : list Alert) : list Alert * nat :=
  match records with
  | [] => (alerts, n)
  | r :: rest =>
      if whitelisted whitelist r
      then analyzeLoop whitelist clock n rest alerts
      else analyzeLoop whitelist clock (S n) rest (alerts ++ portAlerts r (clock n))
  end.

(** The key of [connectionHistory]: the template [port_protocol]. *)
Definition key_of (p : Z) (proto : string) : string := pretty p +:+ "_" +:+ proto.
Definition key (r : PortRecord) : string := key_of (port r) (protocol r).

(** The condition [!lastSeen || currentTime - lastSeen > 60000]:
    [lastSeen] is falsy when the key is absent and when it holds [0]. *)
Definition unseen (history : gmap string Z) (currentTime : Z) (k : string) : bool :=
  match history !! k with
  | None => true
  | Some lastSeen => (lastSeen =? 0) || (currentTime - lastSeen >? 60000)
  end.

(** One call of the [forEach] callback. *)
Definition scanStep (currentTime : Z) (acc : list Z * gmap string Z) (r : PortRecord)
    : list Z * gmap string Z :=
  let '(recentPorts, history) := acc in
  let recentPorts' :=
    if unseen history currentTime (key r) then recentPorts ++ [port r] else recentPorts in
  (recentPorts', <[key r := currentTime]> history).

(** The eviction sweep over [connectionHistory.entries()]. *)
Definition sweep (currentTime : Z) (history : gmap string Z) : gmap string Z :=
  filter (fun kv => ¬ (currentTime - snd kv > 300000)) history.

Definition detectPortScanning (currentTime : Z) (records : list PortRecord)
    (history : gmap string Z) : option Alert * gmap string Z :=
  let '(recentPorts, history1) := fold_left (scanStep currentTime) records ([], history) in
  let history2 := sweep currentTime history1 in
  if (portScanThreshold <=? length recentPorts)%nat
  then (Some (ScanAlert port_scan critical
                ("Possible port scanning detected: " +:+ pretty (length recentPorts) +:+
                 " new ports opened")
                recentPorts),
        history2)
  else (None, history2).

Definition analyzePorts (clock : Clock) (records : list PortRecord) (st : State)
    : list Alert * State :=
  let whitelist := loadWhitelist st in
  let currentTime := clock 0%nat in
  let '(alerts, n) := analyzeLoop whitelist clock 1 records [] in
  let '(portScanAlert, history) :=
    detectPortScanning (clock n) records (connectionHistory st) in
  (match portScanAlert with
   | Some a => alerts ++ [a]
   | None => alerts
   end,
   mkState (whitelistFile st) history).

End SecurityAnalyzer.

(** ** Exceptions

    A call either returns a value or throws; [try_catch] is the source's
    [try { ... } catch (e) { ... }]. *)

Inductive Outcome (A : Type) : Type :=
| Returned (a : A)
| Thrown (error : string).
Arguments Returned {A} a.
Arguments Thrown {A} error.

Definition try_catch {A : Type} (body : Outcome A) (handler : string -> Outcome A)
    : Outcome A :=
  match body with
  | Returned a => Returned a
  | Thrown e => handler e
  end.

(** ** The [PortMonitor] class *)

Module PortMonitor.
Import Regex.
Local Open Scope Z_scope.

(** [(?:\d+\.){3}\d+], the dotted quad shared by several patterns. *)
Definition quad : re := seq [rep 3 (Cat (Plus digit) (Lit ".")); Plus digit].

(** [portPatterns], in source order. *)
Definition portPatterns : list re := [
  (* (?:0\.0\.0\.0|127\.0\.0\.1|\*|::|\[::\]):(\d+) *)
  seq [alt [text "0.0.0.0"; text "127.0.0.1"; text "*"; text "::"; text "[::]"];
       Lit ":"; Group 1 (Plus digit)];
  (* \s+(?:\d+\.){3}\d+:(\d+)\s+ *)
  seq [Plus space; quad; Lit ":"; Group 1 (Plus digit); Plus space];
  (* :(\d+)\s+(?:\d+\.){3}\d+:\* *)
  seq [Lit ":"; Group 1 (Plus digit); Plus space; quad; text ":*"]
].

(** [processPatterns], in source order: the ss format with users, the
    netstat format, the alternative ss format, the ss format without pid. *)
Definition processPatterns : list re := [
  seq [text "users:(("; Lit Js.dquote; Group 1 (Plus notquote); Lit Js.dquote;
       text ",pid="; Group 2 (Plus digit)];
  seq [Group 1 (Plus digit); Lit "/"; Group 2 (Plus nonspace)];
  seq [Lit Js.dquote; Group 1 (Plus notquote); Lit Js.dquote;
       text ",pid="; Group 2 (Plus digit)];
  seq [text "users:(("; Lit Js.dquote; Group 1 (Plus notquote); Lit Js.dquote]
].

(** The pattern of [addressMatch]:
    [((?:\d+\.){3}\d+|\*|::|\[::\]):(\d+)]. *)
Definition addressPattern : re :=
  seq [Group 1 (alt [quad; text "*"; text "::"; text "[::]"]);
       Lit ":"; Group 2 (Plus digit)].

(** [!n] on the result of [parseInt]: [NaN] and [0] are falsy. *)
Definition truthy_int (n : option Z) : bool := Js.truthy_num n.

(** The loop over [portPatterns]: the first pattern that matches with a
    truthy first group fixes [port] and ends the loop.  The result is
    [None] while [portFound] is false. *)
Fixpoint findPort (patterns : list re) (line : string) : option (option Z) :=
  match patterns with
  | [] => None
  | pat :: rest =>
      match exec pat line with
      | Some m =>
          match group 1 m with
          | Some g => if Js.truthy g then Some (Js.parseInt g) else findPort rest line
          | None => findPort rest line
          end
      | None => findPort rest line
      end
  end.

(** The loop over [processPatterns]; [i] is the index of the head of
    [patterns] in [processPatterns].  It yields [(process, pid)], each
    [None] while still [undefined]. *)
Fixpoint findProcess (i : nat) (patterns : list re) (line : string)
    : option string * option Z :=
  match patterns with
  | [] => (None, None)
  | pat :: rest =>
      match exec pat line with
      | Some m =>
          if Nat.eqb i 1 then
            (* netstat format: PID/process *)
            (group 2 m, group 1 m ≫= Js.parseInt)
          else
            match group 2 m with
            | Some g2 =>
                if Js.truthy g2
                then (group 1 m, Js.parseInt g2)   (* ss format with PID *)
                else (group 1 m, None)
            | None => (group 1 m, None)            (* ss format without PID *)
            end
      | None => findProcess (S i) rest line
      end
  end.

Definition wellKnownPorts : list (Z * string) := [
  (22, "ssh"); (53, "dns"); (80, "http"); (443, "https"); (631, "cups");
  (3000, "node"); (3306, "mysql"); (5432, "postgresql"); (6379, "redis");
  (8000, "http-alt"); (8080, "http-proxy"); (8888, "http-alt");
  (10486, "vscode"); (27017, "mongodb"); (53769, "unknown")
].

Definition identifyPortService (port : Z) : string :=
  match List.find (fun kv => fst kv =? port) wellKnownPorts with
  | Some kv => Js.or_else (snd kv) "unknown"
  | None => "unknown"
  end.

Definition findAddress (line : string) : option string :=
  match exec addressPattern line with
  | Some m =>
      match group 1 m with
      | Some a =>
          if String.eqb a "*" || Js.includes a "::" then Some "0.0.0.0" else Some a
      | None => None
      end
  | None => None
  end.

(** The variables that live across iterations of the loop over the
    lines: the array [ports], the set [seenPorts], and the number of
    clock readings made so far. *)
Record Parse : Type := mkParse {
  ports : list PortRecord;
  seenPorts : gset string;
  reads : nat
}.

(** The body of the loop for one line.  Nothing in the body can throw
    on a string, so the [try]/[catch] around it never fires. *)
Definition parseLine (clock : Clock) (st : Parse) (line : string) : Parse :=
  (* Skip header lines *)
  if Js.includes line "Proto" || Js.includes line "Active" then st else
  (* Detect protocol *)
  match (if Js.includes line "tcp" then Some "tcp"
         else if Js.includes line "udp" then Some "udp" else None) with
  | None => st
  | Some protocol =>
      match findPort portPatterns line with
      | None => st
      | Some parsed =>
          if negb (truthy_int parsed) then st else
          let port := default 0 parsed in
          (* Skip if already processed *)
          let portKey := protocol +:+ "-" +:+ pretty port in
          if bool_decide (portKey ∈ seenPorts st) then st else
          let '(process0, pid) := findProcess 0 processPatterns line in
          (* If no process found, try to identify by port *)
          let process :=
            if negb (Js.truthy (default "" process0))
            then identifyPortService port else default "" process0 in
          let address := findAddress line in
          mkParse
            (ports st ++
             [ {| port := port;
                  protocol := protocol;
                  process := Js.or_else process "unknown";
                  pid := if Js.truthy_num pid then pid else None;
                  address := Js.or_else (default "" address) "0.0.0.0";
                  timestamp := clock (reads st) |} ])
            ({[ portKey ]} ∪ seenPorts st)
            (S (reads st))
      end
  end.

(** [output.split('\n').filter(line => line.trim())]. *)
Definition lines (output : string) : list string :=
  map Js.str (List.filter Js.trim_truthy (Js.split "010" (Js.chars output))).

Definition parseLoop (clock : Clock) (output : string) : Parse :=
  fold_left (parseLine clock) (lines output) (mkParse [] ∅ 0).

Definition parsePortOutput (clock : Clock) (output : string) : list PortRecord :=
  Js.sort_by port (ports (parseLoop clock output)).

(** The fields of the instance that [getActivePorts] uses. *)
Record State : Type := mkState {
  cachedPorts : list PortRecord;
  lastUpdate : Z;
  cacheTimeout : Z
}.

(** [new PortMonitor()]. *)
Definition initial : State := mkState [] 0 5000.

Definition shift (n : nat) (clock : Clock) : Clock := fun i => clock (n + i)%nat.

(** The body of the outer [try] of [getActivePorts].  [ss] and [netstat]
    are what the two [execPromise] calls do when they are reached: resolve
    with [stdout] or reject. *)
Definition getActivePorts_body (clock : Clock) (ss netstat : Outcome string)
    (st : State) : Outcome (list PortRecord) * State :=
  (* Use cache if recent *)
  if (clock 0%nat - lastUpdate st <? cacheTimeout st) && (0 <? length (cachedPorts st))%nat
  then (Returned (cachedPorts st), st)
  else
    (* Try ss first, fallback to netstat *)
    let output :=
      try_catch ss (fun _ => netstat) in
    match output with
    | Thrown fallbackError =>
        (Returned (cachedPorts st), st)   (* Return cached data on failure *)
    | Returned stdout =>
        let ports := parsePortOutput (shift 1 clock) stdout in
        (Returned ports,
         mkState ports (clock (1 + length ports)%nat) (cacheTimeout st))
    end.

Definition getActivePorts (clock : Clock) (ss netstat : Outcome string)
    (st : State) : Outcome (list PortRecord) * State :=
  let '(result, st') := getActivePorts_body clock ss netstat st in
  match result with
  | Returned ports => (Returned ports, st')
  | Thrown error => (Returned (cachedPorts st'), st')
  end.

End PortMonitor.

(** ** The [Database] class: retention *)

Module Database.
Local Open Scope Z_scope.

(** Rows of the four tables.  [timestamp] is the [DATETIME] column, filled
    by [CURRENT_TIMESTAMP] and compared as text in the fixed format
    [YYYY-MM-DD HH:MM:SS]; it is modelled by the number of seconds it
    denotes, which orders the same way. *)
Record port_snapshot : Type := {
  ps_id : Z; ps_timestamp : Z; ps_port : Z; ps_protocol : string;
  ps_process : option string; ps_pid : option Z;
  ps_container : option string; ps_container_id : option string
}.
Record traffic_stat : Type := {
  ts_id : Z; ts_timestamp : Z; ts_port : Z; ts_bytes_in : Z; ts_bytes_out : Z;
  ts_connections : Z; ts_packets_in : Z; ts_packets_out : Z
}.
Record security_alert : Type := {
  al_id : Z; al_timestamp : Z; al_type : string; al_severity : string;
  al_message : string; al_port : option Z; al_process : option string;
  al_resolved : Z
}.
Record connection : Type := {
  cn_id : Z; cn_timestamp : Z; cn_local_ip : string; cn_local_port : Z;
  cn_remote_ip : string; cn_remote_port : Z; cn_state : string;
  cn_duration : option Z
}.

Record Db : Type := mkDb {
  port_snapshots : list port_snapshot;
  traffic_stats : list traffic_stat;
  security_alerts : list security_alert;
  connections : list connection
}.

(** [datetime('now', '-N days')], in seconds. *)
Definition horizon (now : Z) (daysToKeep : N) : Z := now - Z.of_N daysToKeep * 86400.

(** [DELETE FROM t WHERE cond]: the rows that do not satisfy [cond] stay. *)
Definition delete_where {A : Type} (cond : A -> bool) (rows : list A) : list A :=
  List.filter (fun r => negb (cond r)) rows.

(** The five statements of [queries], as functions on the database. *)
Definition queries (now : Z) (daysToKeep : N) : list (Db -> Db) := [
  (fun db => mkDb (delete_where (fun r => ps_timestamp r <? horizon now daysToKeep)
                                (port_snapshots db))
                  (traffic_stats db) (security_alerts db) (connections db));
  (fun db => mkDb (port_snapshots db)
                  (delete_where (fun r => ts_timestamp r <? horizon now daysToKeep)
                                (traffic_stats db))
                  (security_alerts db) (connections db));
  (fun db => mkDb (port_snapshots db) (traffic_stats db)
                  (delete_where (fun r => (al_resolved r =? 1)
                                          && (al_timestamp r <? horizon now daysToKeep))
                                (security_alerts db))
                  (connections db));
  (fun db => mkDb (port_snapshots db) (traffic_stats db) (security_alerts db)
                  (delete_where (fun r => cn_timestamp r <? horizon now daysToKeep)
                                (connections db)));
  (fun db => db)   (* VACUUM *)
].

(** [this.run(query)]: the statement takes effect, or the driver reports
    an error and the database is left as it was. *)
Definition run (fails : bool) (query : Db -> Db) (db : Db) : Outcome unit * Db :=
  if fails then (Thrown "SQLITE_ERROR", db) else (Returned tt, query db).

(** The loop of [cleanup]: each statement is run inside its own
    [try]/[catch], so a failing one is logged and the next one runs.
    [fails i] tells whether the [i]-th statement fails. *)
Fixpoint cleanupLoop (fails : nat -> bool) (i : nat) (qs : list (Db -> Db)) (db : Db)
    : Db :=
  match qs with
  | [] => db
  | q :: rest =>
      let '(_, db') := run (fails i) q db in
      cleanupLoop fails (S i) rest db'
  end.

Definition cleanup (fails : nat -> bool) (now : Z) (daysToKeep : N) (db : Db) : Db :=
  cleanupLoop fails 0 (queries now daysToKeep) db.

End Database.

(** ** The security middleware: input sanitization *)

Module Middleware.
#[local] Set Warnings "-register-all".

(** [s.replace(/c/g, rep)] for a one-character pattern. *)
Fixpoint replaceAll (c : ascii) (rep : string) (s : string) : string :=
  match s with
  | EmptyString => EmptyString
  | String x s' =>
      if Ascii.eqb x c then rep +:+ replaceAll c rep s'
      else String x (replaceAll c rep s')
  end.

(** [sanitizeInput] on a string: the five replacements, in source order. *)
Definition sanitizeInput (input : string) : string :=
  replaceAll "/" "&#x2F;"
    (replaceAll "'" "&#x27;"
       (replaceAll Js.dquote "&quot;"
          (replaceAll ">" "&gt;"
             (replaceAll "<" "&lt;" input)))).

(** What [express.json()] puts in [req.body]; numbers are taken to be
    integers, as everywhere in this development. *)
Inductive Json : Type :=
| JNull
| JBool (b : bool)
| JNum (n : Z)
| JStr (s : string)
| JArr (items : list Json)
| JObj (fields : list (string * Json)).

(** What [sanitizeObj] leaves at a key whose value was [v]: a string is
    sanitized, an object or array is walked (the keys of an array are its
    indices), anything else is left as it is. *)
Fixpoint sanitizeValue (v : Json) : Json :=
  match v with
  | JStr s => JStr (sanitizeInput s)
  | JArr items => JArr (map sanitizeValue items)
  | JObj fields => JObj (map (fun kv => (fst kv, sanitizeValue (snd kv))) fields)
  | _ => v
  end.

(** Truthiness of a JSON value. *)
Definition truthyJson (v : Json) : bool :=
  match v with
  | JNull => false
  | JBool b => b
  | JNum n => negb (n =? 0)%Z
  | JStr s => Js.truthy s
  | JArr _ | JObj _ => true
  end.

(** [if (req.body) sanitizeObj(req.body)]. *)
Definition sanitizeBody (body : Json) : Json :=
  if truthyJson body then
    match body with
    | JArr _ | JObj _ => sanitizeValue body
    | _ => body
    end
  else body.

(** [obj[key]]: the last binding of the key, [None] when there is none. *)
Definition get (key : string) (v : Json) : option Json :=
  match v with
  | JObj fields =>
      fold_left (fun found kv => if String.eqb (fst kv) key then Some (snd kv) else found)
                fields None
  | _ => None
  end.

End Middleware.

(** ** The whitelist routes of the server *)

Module Api.
Import Middleware.
Local Open Scope Z_scope.

Record Response : Type := mkResponse {
  status : Z;
  success : bool;
  error : option string
}.

Definition ok : Response := mkResponse 200 true None.
Definition bad (msg : string) : Response := mkResponse 400 false (Some msg).

(** The handler of [POST /api/security/whitelist], given the body the
    middleware left ([express.json()] yields an object or an array, and
    an empty object when the request has no body).  A [port] that is
    missing, not a number, zero or out of range is refused; so is a
    [process] that is truthy and not a string. *)
Definition postWhitelist (body : Json) (st : SecurityAnalyzer.State)
    : Response * SecurityAnalyzer.State :=
  let port := get "port" body in
  let process := get "process" body in
  match port with
  | Some (JNum p) =>
      if negb (truthyJson (JNum p)) || (p <? 1) || (p >? 65535)
      then (bad "Invalid port number", st)
      else
        match process with
        | Some (JStr name) => (ok, SecurityAnalyzer.addToWhitelist p (Some name) st)
        | Some v =>
            if truthyJson v then (bad "Invalid process name", st)
            else (ok, SecurityAnalyzer.addToWhitelist p None st)
        | None => (ok, SecurityAnalyzer.addToWhitelist p None st)
        end
  | _ => (bad "Invalid port number", st)
  end.

(** The handler of [DELETE /api/security/whitelist/:port]. *)
Definition deleteWhitelist (param : string) (st : SecurityAnalyzer.State)
    : Response * SecurityAnalyzer.State :=
  match Js.parseInt param with
  | None => (bad "Invalid port number", st)
  | Some p =>
      if (p <? 1) || (p >? 65535) then (bad "Invalid port number", st)
      else (ok, SecurityAnalyzer.removeFromWhitelist p st)
  end.

Inductive Request : Type :=
| PostWhitelist (body : Json)
| DeleteWhitelist (param : string).

(** A request as the application serves it, once the rate limiter and
    the authentication check have let it through and with the whitelist
    file writable: [sanitizeMiddleware] runs on the body before the route
    is chosen, when [req.params] is still empty. *)
Definition serve (req : Request) (st : SecurityAnalyzer.State)
    : Response * SecurityAnalyzer.State :=
  match req with
  | PostWhitelist body => postWhitelist (sanitizeBody body) st
  | DeleteWhitelist param => deleteWhitelist param st
  end.

Definition serveAll (reqs : list Request) (st : SecurityAnalyzer.State)
    : SecurityAnalyzer.State :=
  fold_left (fun s req => snd (serve req s)) reqs st.

End Api.

(** ** [PortMonitor]: the cache and the established connections *)

Module Connections.
Import Regex.
Local Open Scope Z_scope.


(** The classes [[\d.]], [[\da-f:]] and [\w]. *)
Definition digit_dot (c : ascii) : bool := Js.is_digit c || Ascii.eqb c ".".
Definition hex_colon (c : ascii) : bool :=
  let n := nat_of_ascii c in
  Js.is_digit c || ((97 <=? n)%nat && (n <=? 102)%nat) || Ascii.eqb c ":".
Definition word (c : ascii) : bool :=
  let n := nat_of_ascii c in
  ((65 <=? n)%nat && (n <=? 90)%nat) || ((97 <=? n)%nat && (n <=? 122)%nat)
  || Js.is_digit c || Ascii.eqb c "_".

(** [([\d.]+|[\da-f:]+)] as group [i]. *)
Definition host (i : nat) : re := Group i (Or (Plus digit_dot) (Plus hex_colon)).

(** [connectionPattern]:
    [([\d.]+|[\da-f:]+):(\d+)\s+([\d.]+|[\da-f:]+):(\d+)\s+(\w+)?]. *)
Definition connectionPattern : re :=
  seq [host 1; Lit ":"; Group 2 (Plus digit); Plus space;
       host 3; Lit ":"; Group 4 (Plus digit); Plus space;
       Or (Group 5 (Plus word)) Eps].

(** The object pushed for a matching line.  [localIp] and [remoteIp] hold
    [match[1]] and [match[3]] as they are ([None] is [undefined]); the
    ports are results of [parseInt] ([None] is [NaN]). *)
Record Connection : Type := mkConnection {
  localIp : option string;
  localPort : option Z;
  remoteIp : option string;
  remotePort : option Z;
  state : string;
  timestamp : Z
}.

(** The array [connections] and the number of clock readings so far. *)
Record ConnectionParse : Type := mkConnectionParse {
  parsed : list Connection;
  readings : nat
}.

(** The body of the loop for one line. *)
Definition parseConnectionLine (clock : Clock) (st : ConnectionParse) (line : string)
    : ConnectionParse :=
  (* Skip headers *)
  if Js.includes line "Proto" || Js.includes line "Active" then st else
  match exec connectionPattern line with
  | Some m =>
      mkConnectionParse
        (parsed st ++
         [ {| localIp := group 1 m;
              localPort := group 2 m ≫= Js.parseInt;
              remoteIp := group 3 m;
              remotePort := group 4 m ≫= Js.parseInt;
              state := Js.or_else (default "" (group 5 m)) "ESTABLISHED";
              timestamp := clock (readings st) |} ])
        (S (readings st))
  | None => st
  end.

Definition parseConnectionOutput (clock : Clock) (output : string) : list Connection :=
  parsed (fold_left (parseConnectionLine clock) (PortMonitor.lines output)
            (mkConnectionParse [] 0)).

(** [getActiveConnections], on [this.cachedConnections]: the result and
    the cache it leaves. *)
Definition getActiveConnections (clock : Clock) (ss netstat : Outcome string)
    (cachedConnections : list Connection) : list Connection * list Connection :=
  match try_catch ss (fun _ => netstat) with
  | Thrown fallbackError => (cachedConnections, cachedConnections)
  | Returned stdout =>
      let connections := parseConnectionOutput clock stdout in
      (connections, connections)
  end.

End Connections.

(** ** [SecurityAnalyzer]: the origin of a connection *)

Module GeoAnalysis.

(** What [geoip.lookup] returns; [L] is the type of the coordinate pair
    [ll], which is copied and never read. *)
Record Geo (L : Type) : Type := mkGeo {
  country : string;
  region : string;
  city : string;
  ll : L;
  timezone : string
}.
Arguments mkGeo {L} _ _ _ _ _.
Arguments country {L} _.
Arguments region {L} _.
Arguments city {L} _.
Arguments ll {L} _.
Arguments timezone {L} _.

Inductive GeoAlertType : Set := suspicious_country | medium_risk_country.

(** An alert of [analyzeConnection].  [ga_connection] is the connection
    object analysed, which by then carries [ga_geoData] as its [geoData];
    [C] is the type of connection objects. *)
Record GeoAlert (C L : Type) : Type := mkGeoAlert {
  ga_type : GeoAlertType;
  ga_severity : Severity;
  ga_message : string;
  ga_connection : C;
  ga_geoData : Geo L
}.
Arguments mkGeoAlert {C L} _ _ _ _ _.
Arguments ga_type {C L} _.
Arguments ga_severity {C L} _.
Arguments ga_message {C L} _.
Arguments ga_connection {C L} _.
Arguments ga_geoData {C L} _.

Definition isPrivateIP (ip : string) : bool :=
  String.prefix "192.168." ip
  || String.prefix "10." ip
  || String.prefix "172." ip
  || String.eqb ip "127.0.0.1"
  || String.eqb ip "::1".

Definition highRisk : list string := ["CN"; "RU"; "KP"; "IR"; "BY"].
Definition mediumRisk : list string := ["VN"; "UA"; "BD"; "PK"].

Section AnalyzeConnection.
(** [remoteIp] reads [connection.remoteIp]; [lookup] is [geoip.lookup]. *)
Context {C L : Type} (remoteIp : C -> string) (lookup : string -> option (Geo L)).

(** [analyzeConnection(connection)]: the [geoData] it stores on the
    connection ([None] when it stores none) and the alerts it returns. *)
Definition analyzeConnection (connection : C) : option (Geo L) * list (GeoAlert C L) :=
  if negb (isPrivateIP (remoteIp connection)) then
    match lookup (remoteIp connection) with
    | Some geo =>
        let origin :=
          country geo +:+ " (" +:+ Js.or_else (city geo) "Unknown city" +:+ ")" in
        (Some geo,
         (if SecurityAnalyzer.includes_str highRisk (country geo)
          then [mkGeoAlert suspicious_country high
                  ("Connection from high-risk country: " +:+ origin) connection geo]
          else [])
         ++
         (if SecurityAnalyzer.includes_str mediumRisk (country geo)
          then [mkGeoAlert medium_risk_country medium
                  ("Connection from medium-risk country: " +:+ origin) connection geo]
          else []))
    | None => (None, [])
    end
  else (None, []).

End AnalyzeConnection.

End GeoAnalysis.

(** ** [Database]: resolving an alert *)

Module DatabaseOps.
Import Database.
Local Open Scope Z_scope.

(** [UPDATE security_alerts SET resolved = 1 WHERE id = ?]. *)
Definition resolve_where (alertId : Z) (rows : list security_alert) : list security_alert :=
  map (fun r =>
         if al_id r =? alertId
         then {| al_id := al_id r; al_timestamp := al_timestamp r; al_type := al_type r;
                 al_severity := al_severity r; al_message := al_message r;
                 al_port := al_port r; al_process := al_process r; al_resolved := 1 |}
         else r)
      rows.

(** [resolveAlert(alertId)]: the error of a failing statement is logged
    and thrown again. *)
Definition resolveAlert (fails : bool) (alertId : Z) (db : Db) : Outcome unit * Db :=
  let '(result, db') :=
    run fails
        (fun db => mkDb (port_snapshots db) (traffic_stats db)
                        (resolve_where alertId (security_alerts db))
                        (connections db))
        db in
  (try_catch result (fun error => Thrown error), db').

End DatabaseOps.

(** * Properties *)

(** ** The security classifier *)

Module ClassifierFacts.
Import SecurityAnalyzer.
Local Open Scope Z_scope.

Lemma includes_In (l : list Z) (x : Z) :
  PortDatabase.includes l x = true <-> In x l.
Proof.
  unfold PortDatabase.includes. rewrite existsb_exists. split.
  - intros (y & Hy & Heq). apply Z.eqb_eq in Heq. now subst.
  - intros H. exists x. split; [assumption | apply Z.eqb_refl].
Qed.

Lemma includes_str_In (l : list string) (x : string) :
  includes_str l x = true <-> In x l.
Proof.
  unfold includes_str. rewrite existsb_exists. split.
  - intros (y & Hy & Heq). apply String.eqb_eq in Heq. now subst.
  - intros H. exists x. split; [assumption | apply String.eqb_refl].
Qed.

Lemma whitelisted_iff (wl : Whitelist) (r : PortRecord) :
  whitelisted wl r = true <->
  In (port r) (ports wl) \/ In (process r) (processes wl).
Proof.
  unfold whitelisted. rewrite orb_true_iff, includes_In, includes_str_In. tauto.
Qed.

(** [isDangerous] is membership in [dangerousPorts] on both paths of
    [getPortInfo]. *)
Lemma isDangerous_getPortInfo (p : Z) (proto proc : string) :
  PortDatabase.isDangerous (PortDatabase.getPortInfo p proto proc)
  = PortDatabase.includes PortDatabase.dangerousPorts p.
Proof.
  unfold PortDatabase.getPortInfo.
  destruct (PortDatabase.commonPorts p); [reflexivity|].
  destruct (p <? 1024), (p >=? 49152),
    (PortDatabase.includes PortDatabase.dangerousPorts p); reflexivity.
Qed.

Lemma generateSecurityAlert_dangerous (p : Z) (proto proc addr : string) (now : Z) :
  In p PortDatabase.dangerousPorts ->
  PortDatabase.type (PortDatabase.generateSecurityAlert p proto proc addr now)
    = dangerous_port /\
  PortDatabase.severity (PortDatabase.generateSecurityAlert p proto proc addr now)
    = critical.
Proof.
  intros Hin. apply includes_In in Hin.
  unfold PortDatabase.generateSecurityAlert.
  rewrite isDangerous_getPortInfo, Hin. split; reflexivity.
Qed.

(** The classifier never produces the detector's alert type. *)
Lemma generateSecurityAlert_not_scan (p : Z) (proto proc addr : string) (now : Z) :
  PortDatabase.type (PortDatabase.generateSecurityAlert p proto proc addr now)
    <> port_scan.
Proof.
  unfold PortDatabase.generateSecurityAlert.
  repeat match goal with
         | |- context [if ?b then _ else _] => destruct b
         end; simpl; discriminate.
Qed.

Definition is_scan (a : Alert) : bool := bool_decide (alert_type a = port_scan).

Lemma portAlerts_not_scan (r : PortRecord) (now : Z) :
  forallb (fun a => negb (is_scan a)) (portAlerts r now) = true.
Proof.
  unfold portAlerts. cbn [forallb]. apply andb_true_iff. split.
  - unfold is_scan. cbn [alert_type].
    rewrite bool_decide_eq_false_2; [reflexivity|].
    apply generateSecurityAlert_not_scan.
  - rewrite forallb_app. apply andb_true_iff. split.
    + apply forallb_forall. intros a Ha.
      apply in_flat_map in Ha. destruct Ha as (sp & _ & Ha).
      destruct (_ && _) in Ha; [|contradiction].
      destruct Ha as [<-|[]]. reflexivity.
    + destruct (_ && _); reflexivity.
Qed.

(** What one iteration does to the loop state. *)
Lemma analyzeLoop_skip wl clock n r rest acc :
  whitelisted wl r = true ->
  analyzeLoop wl clock n (r :: rest) acc = analyzeLoop wl clock n rest acc.
Proof. intros H. cbn [analyzeLoop]. now rewrite H. Qed.

Lemma analyzeLoop_keep wl clock n r rest acc :
  whitelisted wl r = false ->
  analyzeLoop wl clock n (r :: rest) acc
  = analyzeLoop wl clock (S n) rest (acc ++ portAlerts r (clock n)).
Proof. intros H. cbn [analyzeLoop]. now rewrite H. Qed.

Lemma analyzeLoop_app wl clock n l1 l2 acc :
  analyzeLoop wl clock n (l1 ++ l2) acc
  = analyzeLoop wl clock (snd (analyzeLoop wl clock n l1 acc)) l2
      (fst (analyzeLoop wl clock n l1 acc)).
Proof.
  revert n acc. induction l1 as [|r l1 IH]; intros n acc; [reflexivity|].
  cbn [app analyzeLoop]. destruct (whitelisted wl r); apply IH.
Qed.

Lemma analyzeLoop_not_scan wl clock n l acc :
  forallb (fun a => negb (is_scan a)) acc = true ->
  forallb (fun a => negb (is_scan a)) (fst (analyzeLoop wl clock n l acc)) = true.
Proof.
  revert n acc. induction l as [|r l IH]; intros n acc Hacc; [exact Hacc|].
  cbn [analyzeLoop]. destruct (whitelisted wl r); apply IH; [assumption|].
  rewrite forallb_app, Hacc. apply portAlerts_not_scan.
Qed.

(** The alerts of [analyzePorts] that come from the per-record classifier:
    everything but the detector's [port_scan] alert. *)
Definition classifierAlerts (alerts : list Alert) : list Alert :=
  List.filter (fun a => negb (is_scan a)) alerts.

Lemma filter_all {A : Type} (f : A -> bool) (l : list A) :
  forallb f l = true -> List.filter f l = l.
Proof.
  induction l as [|x l IH]; cbn; [reflexivity|].
  intros H. apply andb_true_iff in H. destruct H as [Hx Hl].
  rewrite Hx. f_equal. now apply IH.
Qed.

Lemma classifierAlerts_analyzePorts clock records st :
  classifierAlerts (fst (analyzePorts clock records st))
  = fst (analyzeLoop (loadWhitelist st) clock 1 records []).
Proof.
  unfold analyzePorts, detectPortScanning, classifierAlerts.
  pose proof (analyzeLoop_not_scan (loadWhitelist st) clock 1 records [] eq_refl) as Hns.
  destruct (analyzeLoop (loadWhitelist st) clock 1 records []) as [alerts n].
  cbn [fst] in *.
  destruct (fold_left _ records _) as [recent hist1].
  destruct (_ <=? _)%nat; cbn [fst].
  - rewrite List.filter_app, filter_all by assumption. cbn. now rewrite app_nil_r.
  - now apply filter_all.
Qed.

(** C2.  A record whose port is in the whitelist's [ports] or whose
    process name is in its [processes] yields no classifier alert: the
    loop of [analyzePorts] skips it, so the classifier alerts returned for
    a list holding the record are exactly those returned for the list
    without it (no knowledge-table alert, no suspicious-process alert and
    no privilege-violation alert is added for it). *)
Theorem whitelisted_record_yields_no_alert
    (clock : Clock) (st : State) (r : PortRecord) (before after : list PortRecord) :
  In (port r) (ports (loadWhitelist st)) \/
  In (process r) (processes (loadWhitelist st)) ->
  classifierAlerts (fst (analyzePorts clock (before ++ r :: after) st))
  = classifierAlerts (fst (analyzePorts clock (before ++ after) st)).
Proof.
  intros Hwl. apply whitelisted_iff in Hwl.
  rewrite !classifierAlerts_analyzePorts, !analyzeLoop_app.
  now rewrite analyzeLoop_skip.
Qed.

Definition nginx80 : PortRecord := mkPort 80 "tcp" "nginx" (Some 5678) "0.0.0.0" 0.
Definition sshd22 : PortRecord := mkPort 22 "tcp" "sshd" (Some 1234) "0.0.0.0" 0.

Lemma whitelisted_record_yields_no_alert_witness :
  classifierAlerts
    (fst (analyzePorts (fun _ => 1000000) ([sshd22] ++ nginx80 :: [])
            (mkState (Some (mkWhitelist [80] [])) ∅)))
  = classifierAlerts
      (fst (analyzePorts (fun _ => 1000000) ([sshd22] ++ [])
              (mkState (Some (mkWhitelist [80] [])) ∅))).
Proof.
  apply (whitelisted_record_yields_no_alert (fun _ => 1000000)
           (mkState (Some (mkWhitelist [80] [])) ∅) nginx80 [sshd22] []).
  left. simpl. left. reflexivity.
Defined.

(** A record that is not whitelisted always adds its knowledge-table
    alert, so C2 is not vacuous: skipping is the only way to add nothing. *)
Lemma kept_record_adds_alert wl clock n r rest acc :
  whitelisted wl r = false ->
  exists a others,
    analyzeLoop wl clock n (r :: rest) acc
    = analyzeLoop wl clock (S n) rest (acc ++ a :: others).
Proof.
  intros H. rewrite analyzeLoop_keep by assumption.
  unfold portAlerts. eexists _, _. reflexivity.
Qed.

(** C6.  For a record that is not whitelisted and whose port is in
    [dangerousPorts] (port 23 among them), the alert generated for it has
    type [dangerous_port] and severity [critical], whatever its protocol,
    process, pid and address are, hence whatever the later rules of the
    decision order would have said. *)
Theorem dangerous_port_alert
    (wl : Whitelist) (clock : Clock) (n : nat) (r : PortRecord) :
  whitelisted wl r = false ->
  In (port r) PortDatabase.dangerousPorts ->
  exists a others,
    fst (analyzeLoop wl clock n [r] []) = a :: others /\
    alert_type a = dangerous_port /\ alert_severity a = critical.
Proof.
  intros Hwl Hin. rewrite analyzeLoop_keep by assumption.
  cbn [analyzeLoop fst app]. unfold portAlerts.
  eexists _, _. split; [reflexivity|]. cbn [alert_type alert_severity].
  now apply generateSecurityAlert_dangerous.
Qed.

Definition telnet23 : PortRecord := mkPort 23 "tcp" "telnetd" (Some 77) "0.0.0.0" 0.

Lemma dangerous_port_alert_witness :
  exists a others,
    fst (analyzeLoop (mkWhitelist [] []) (fun _ => 1000000) 1 [telnet23] []) = a :: others /\
    alert_type a = dangerous_port /\ alert_severity a = critical.
Proof.
  apply (dangerous_port_alert (mkWhitelist [] []) (fun _ => 1000000) 1 telnet23).
  - reflexivity.
  - simpl. left. reflexivity.
Defined.

(** C5.  For a record that is not whitelisted, with port 3000 and process
    name [node], the alert generated for it is [info] with severity [low]
    when the bind address is [127.0.0.1], and [dev_service_exposed] with
    severity [high] when the bind address is [0.0.0.0]. *)
Theorem node_3000_classification
    (wl : Whitelist) (clock : Clock) (n : nat) (r : PortRecord) :
  whitelisted wl r = false ->
  port r = 3000 -> process r = "node" ->
  exists a others,
    fst (analyzeLoop wl clock n [r] []) = a :: others /\
    (address r = "127.0.0.1" -> alert_type a = info /\ alert_severity a = low) /\
    (address r = "0.0.0.0" ->
     alert_type a = dev_service_exposed /\ alert_severity a = high).
Proof.
  intros Hwl Hport Hproc. rewrite analyzeLoop_keep by assumption.
  cbn [analyzeLoop fst app]. unfold portAlerts.
  eexists _, _. split; [reflexivity|]. cbn [alert_type alert_severity].
  rewrite Hport, Hproc. split; intros ->; split; reflexivity.
Qed.

Lemma node_3000_classification_witness :
  (exists a others,
     fst (analyzeLoop (mkWhitelist [] []) (fun _ => 1000000) 1
            [mkPort 3000 "tcp" "node" (Some 4242) "127.0.0.1" 0] []) = a :: others /\
     alert_type a = info /\ alert_severity a = low) /\
  (exists a others,
     fst (analyzeLoop (mkWhitelist [] []) (fun _ => 1000000) 1
            [mkPort 3000 "tcp" "node" (Some 4242) "0.0.0.0" 0] []) = a :: others /\
     alert_type a = dev_service_exposed /\ alert_severity a = high).
Proof.
  split.
  - destruct (node_3000_classification (mkWhitelist [] []) (fun _ => 1000000) 1
                (mkPort 3000 "tcp" "node" (Some 4242) "127.0.0.1" 0)
                eq_refl eq_refl eq_refl) as (a & others & Heq & Hlo & _).
    exists a, others. split; [exact Heq | exact (Hlo eq_refl)].
  - destruct (node_3000_classification (mkWhitelist [] []) (fun _ => 1000000) 1
                (mkPort 3000 "tcp" "node" (Some 4242) "0.0.0.0" 0)
                eq_refl eq_refl eq_refl) as (a & others & Heq & _ & Hex).
    exists a, others. split; [exact Heq | exact (Hex eq_refl)].
Defined.

(** C10.  For every whitelist state and every port [p],
    [removeFromWhitelist p] leaves in [ports] exactly the entries other
    than [p], so [p] is no longer listed, and leaves [processes] as it was.
    Consequently every record whose process name is listed is still
    skipped by the classifier after the removal; in particular a record
    whose non-empty process name was whitelisted together with [p] by
    [addToWhitelist p] stays suppressed once [p] is removed. *)
Theorem removeFromWhitelist_keeps_processes (p : Z) (st : State) :
  let wl := loadWhitelist st in
  let wl' := loadWhitelist (removeFromWhitelist p st) in
  ports wl' = List.filter (fun q => negb (q =? p)) (ports wl) /\
  ~ In p (ports wl') /\
  (forall q, q <> p -> (In q (ports wl') <-> In q (ports wl))) /\
  processes wl' = processes wl /\
  (forall r, In (process r) (processes wl) ->
     whitelisted wl' r = true /\
     (forall clock n rest acc,
         analyzeLoop wl' clock n (r :: rest) acc = analyzeLoop wl' clock n rest acc)) /\
  (forall r st0, process r <> "" ->
     st = addToWhitelist p (Some (process r)) st0 ->
     whitelisted wl' r = true).
Proof.
  intros wl wl'.
  assert (Hports : ports wl' = List.filter (fun q => negb (q =? p)) (ports wl))
    by reflexivity.
  assert (Hprocs : processes wl' = processes wl) by reflexivity.
  assert (Hkeep : forall r, In (process r) (processes wl) -> whitelisted wl' r = true).
  { intros r Hproc. apply whitelisted_iff. right. rewrite Hprocs. exact Hproc. }
  split; [exact Hports|]. split; [|split; [|split; [exact Hprocs|split]]].
  - rewrite Hports. intros Hin. apply filter_In in Hin. destruct Hin as [_ Hne].
    rewrite Z.eqb_refl in Hne. discriminate.
  - intros q Hq. rewrite Hports, filter_In, negb_true_iff, Z.eqb_neq. tauto.
  - intros r Hproc. split; [now apply Hkeep|].
    intros. apply analyzeLoop_skip. now apply Hkeep.
  - intros r st0 Hne Hst. apply Hkeep. subst wl. rewrite Hst.
    unfold addToWhitelist, saveWhitelist, loadWhitelist at 1.
    cbn [whitelistFile processes].
    destruct (process r) as [|c name] eqn:Hname; [congruence|].
    cbn [Js.truthy andb].
    destruct (includes_str (processes (loadWhitelist st0)) (String c name)) eqn:Hin;
      cbn [negb].
    + now apply includes_str_In in Hin.
    + apply in_or_app. right. now left.
Qed.

(** The whitelist file holding ports 80 and 443 and no process name. *)
Definition ports_only : State := mkState (Some (mkWhitelist [80; 443] [])) ∅.

Lemma removeFromWhitelist_keeps_processes_witness :
  let wl := loadWhitelist ports_only in
  let wl' := loadWhitelist (removeFromWhitelist 80 ports_only) in
  ports wl' = List.filter (fun q => negb (q =? 80)) (ports wl) /\
  ~ In 80 (ports wl') /\
  (forall q, q <> 80 -> (In q (ports wl') <-> In q (ports wl))) /\
  processes wl' = processes wl /\
  (forall r, In (process r) (processes wl) ->
     whitelisted wl' r = true /\
     (forall clock n rest acc,
         analyzeLoop wl' clock n (r :: rest) acc = analyzeLoop wl' clock n rest acc)) /\
  (forall r st0, process r <> "" ->
     ports_only = addToWhitelist 80 (Some (process r)) st0 ->
     whitelisted wl' r = true).
Proof.
  exact (removeFromWhitelist_keeps_processes 80 ports_only).
Defined.

(** On that file the removal leaves port 443 alone, and on the file
    written by [addToWhitelist 80 nginx] it leaves the process name, so
    that nginx is still skipped though port 80 is no longer listed. *)
Example remove_80_from_ports_only :
  loadWhitelist (removeFromWhitelist 80 ports_only) = mkWhitelist [443] [].
Proof. reflexivity. Qed.

Example remove_80_keeps_nginx :
  loadWhitelist (removeFromWhitelist 80 (addToWhitelist 80 (Some "nginx") initial))
  = mkWhitelist [] ["nginx"] /\
  whitelisted
    (loadWhitelist (removeFromWhitelist 80 (addToWhitelist 80 (Some "nginx") initial)))
    nginx80 = true.
Proof. split; reflexivity. Qed.

End ClassifierFacts.

(** ** The anomaly detector *)

Module DetectorFacts.
Import SecurityAnalyzer.
Local Open Scope Z_scope.

(** *** The history key determines the port and the protocol *)

Definition underscore : ascii := "_"%char.

Lemma pretty_N_go_no_underscore (x : N) (s : string) :
  ~ In underscore (Js.chars s) -> ~ In underscore (Js.chars (pretty_N_go x s)).
Proof.
  revert s. induction (N.lt_wf_0 x) as [x _ IH]. intros s Hs.
  destruct (decide (x = 0%N)) as [->|Hx].
  - now rewrite pretty_N_go_0.
  - rewrite pretty_N_go_step by lia. apply IH.
    + apply N.div_lt; lia.
    + cbn. intros [Hc|Hc]; [|now apply Hs].
      revert Hc. unfold pretty_N_char, underscore. repeat case_match; discriminate.
Qed.

Lemma pretty_Z_no_underscore (p : Z) : ~ In underscore (Js.chars (pretty p)).
Proof.
  assert (HN : forall n : N, ~ In underscore (Js.chars (pretty n))).
  { intros n. unfold pretty, pretty_N. case_decide.
    - cbn. intros [Hd|[]]. discriminate.
    - apply pretty_N_go_no_underscore. cbn. tauto. }
  destruct p as [|q|q]; unfold pretty, pretty_Z.
  - cbn. intros [Hd|[]]. discriminate.
  - apply HN.
  - cbn. intros [Hd|Hd]; [discriminate|]. now apply (HN (N.pos q)).
Qed.

Lemma split_at_underscore (a b s t : string) :
  ~ In underscore (Js.chars a) -> ~ In underscore (Js.chars b) ->
  a +:+ String underscore s = b +:+ String underscore t -> a = b /\ s = t.
Proof.
  revert b. induction a as [|c a IH]; intros [|d b] Ha Hb Heq; cbn in *.
  - injection Heq as ->. now split.
  - injection Heq as Hc _. exfalso. apply Hb. now left.
  - injection Heq as Hc _. exfalso. apply Ha. now left.
  - injection Heq as -> Heq. destruct (IH b) as [-> ->]; auto.
Qed.

Lemma key_of_inj (p1 p2 : Z) (s1 s2 : string) :
  key_of p1 s1 = key_of p2 s2 -> p1 = p2 /\ s1 = s2.
Proof.
  unfold key_of. intros H.
  apply split_at_underscore in H; auto using pretty_Z_no_underscore.
  destruct H as [Hp ->]. split; [|reflexivity]. now apply (inj pretty).
Qed.

(** *** The claim's notions

    A (port, protocol) key is new to the detector when it is absent from
    the history map or was last seen more than 60 seconds ago. *)

Definition pair_of (r : PortRecord) : Z * string := (port r, protocol r).

Definition novel (history : gmap string Z) (now : Z) (k : Z * string) : bool :=
  match history !! key_of (fst k) (snd k) with
  | None => true
  | Some lastSeen => 60000 <? now - lastSeen
  end.

(** The distinct keys of the observed records that are new. *)
Definition novel_keys (history : gmap string Z) (now : Z) (records : list PortRecord)
    : list (Z * string) :=
  remove_dups (List.filter (novel history now) (map pair_of records)).

(** *** What the [forEach] computes *)

Fixpoint candidates (now : Z) (history : gmap string Z) (records : list PortRecord)
    : list (Z * string) :=
  match records with
  | [] => []
  | r :: rest =>
      (if unseen history now (key r) then [pair_of r] else [])
      ++ candidates now (<[key r := now]> history) rest
  end.

Fixpoint refreshed (now : Z) (history : gmap string Z) (records : list PortRecord)
    : gmap string Z :=
  match records with
  | [] => history
  | r :: rest => refreshed now (<[key r := now]> history) rest
  end.

Lemma fold_scanStep now records recent history :
  fold_left (scanStep now) records (recent, history)
  = (recent ++ map fst (candidates now history records),
     refreshed now history records).
Proof.
  revert recent history. induction records as [|r rest IH]; intros recent history.
  - cbn. now rewrite app_nil_r.
  - cbn [fold_left candidates refreshed]. unfold scanStep at 2.
    rewrite IH. destruct (unseen history now (key r)); cbn [app map fst pair_of].
    + now rewrite <- app_assoc.
    + reflexivity.
Qed.

(** Past the first minute of the epoch the source's falsy test on
    [lastSeen] adds nothing to the age test. *)
Section PastFirstMinute.

(** The detector is called at a clock reading past the first minute of the
    epoch, as any value of [Date.now()] on a running host is. *)
Variable now : Z.
Hypothesis Hnow : 60000 < now.

Lemma unseen_novel history r :
  unseen history now (key r) = novel history now (pair_of r).
Proof.
  unfold unseen, novel, key, pair_of. cbn [fst snd].
  destruct (history !! key_of (port r) (protocol r)) as [t|]; [|reflexivity].
  rewrite Z.gtb_ltb.
  destruct (Z.eqb_spec t 0) as [->|_]; [|reflexivity].
  cbn [orb]. symmetry. apply Z.ltb_lt. lia.
Qed.

Lemma novel_refreshed_same history r :
  novel (<[key r := now]> history) now (pair_of r) = false.
Proof.
  unfold novel, key, pair_of. cbn [fst snd].
  rewrite lookup_insert_eq. apply Z.ltb_ge. lia.
Qed.

Lemma novel_refreshed_other history r k :
  k <> pair_of r ->
  novel (<[key r := now]> history) now k = novel history now k.
Proof.
  intros Hne. unfold novel, key.
  rewrite lookup_insert_ne; [reflexivity|].
  intros Heq. apply key_of_inj in Heq. apply Hne.
  destruct k as [p s]. cbn in Heq. destruct Heq as [<- <-]. reflexivity.
Qed.

Lemma candidates_elem history records k :
  k ∈ candidates now history records <->
  k ∈ map pair_of records /\ novel history now k = true.
Proof.
  revert history.
  induction records as [|r rest IH]; intros history; cbn [candidates map].
  - rewrite !elem_of_nil. tauto.
  - rewrite elem_of_app, IH, elem_of_cons, unseen_novel.
    destruct (decide (k = pair_of r)) as [->|Hne].
    + rewrite novel_refreshed_same.
      destruct (novel history now (pair_of r)).
      * rewrite list_elem_of_singleton. intuition congruence.
      * rewrite elem_of_nil. intuition congruence.
    + rewrite novel_refreshed_other by assumption.
      destruct (novel history now (pair_of r)).
      * rewrite list_elem_of_singleton. tauto.
      * rewrite elem_of_nil. tauto.
Qed.

Lemma candidates_NoDup history records :
  NoDup (candidates now history records).
Proof.
  revert history.
  induction records as [|r rest IH]; intros history; cbn [candidates].
  - constructor.
  - destruct (unseen history now (key r)); cbn [app]; [|apply IH].
    constructor; [|apply IH].
    rewrite candidates_elem, novel_refreshed_same.
    intros [_ Hf]. discriminate.
Qed.

Lemma candidates_novel_keys history records :
  candidates now history records ≡ₚ novel_keys history now records.
Proof.
  apply NoDup_Permutation.
  - apply candidates_NoDup.
  - apply NoDup_remove_dups.
  - intros k. unfold novel_keys.
    rewrite candidates_elem, elem_of_remove_dups.
    rewrite !list_elem_of_In, filter_In. reflexivity.
Qed.

End PastFirstMinute.

(** C1.  In one call of the detector (made at a clock reading past the
    first minute of the epoch), let [keys] be the distinct (port, protocol)
    keys of the observed records that are absent from the history map or
    were last seen more than 60 seconds ago.  If there are at least 10 of
    them the detector returns one alert, of type [port_scan] and severity
    [critical], listing the ports of those keys; if there are 9 or fewer it
    returns no alert. *)
Theorem port_scan_threshold
    (now : Z) (history : gmap string Z) (records : list PortRecord) :
  60000 < now ->
  let keys := novel_keys history now records in
  ((10 <= length keys)%nat ->
   exists listed,
     fst (detectPortScanning now records history)
     = Some (ScanAlert port_scan critical
               ("Possible port scanning detected: " +:+ pretty (length keys) +:+
                " new ports opened")
               listed) /\
     listed ≡ₚ map fst keys) /\
  ((length keys <= 9)%nat ->
   fst (detectPortScanning now records history) = None).
Proof.
  intros Hnow keys.
  pose proof (candidates_novel_keys now Hnow history records) as Hperm.
  fold keys in Hperm.
  unfold detectPortScanning. rewrite fold_scanStep. cbn [app].
  assert (Hlen : length (map fst (candidates now history records)) = length keys).
  { rewrite length_map. now apply Permutation_length. }
  rewrite Hlen. unfold portScanThreshold. split; intros Hn.
  - destruct (Nat.leb_spec 10 (length keys)) as [_|Hlt]; [|lia].
    cbn [fst]. eexists. split; [reflexivity|].
    now apply Permutation_map.
  - destruct (Nat.leb_spec 10 (length keys)) as [Hge|_]; [lia|]. reflexivity.
Qed.

Definition observed (ps : list Z) : list PortRecord :=
  map (fun p => mkPort p "tcp" "unknown" None "0.0.0.0" 0) ps.

Lemma port_scan_threshold_witness :
  let keys := novel_keys ∅ 1000000 (observed [1; 2; 3; 4; 5; 6; 7; 8; 9; 10]) in
  ((10 <= length keys)%nat ->
   exists listed,
     fst (detectPortScanning 1000000 (observed [1; 2; 3; 4; 5; 6; 7; 8; 9; 10]) ∅)
     = Some (ScanAlert port_scan critical
               ("Possible port scanning detected: " +:+ pretty (length keys) +:+
                " new ports opened")
               listed) /\
     listed ≡ₚ map fst keys) /\
  ((length keys <= 9)%nat ->
   fst (detectPortScanning 1000000 (observed [1; 2; 3; 4; 5; 6; 7; 8; 9; 10]) ∅) = None).
Proof.
  apply (port_scan_threshold 1000000 ∅ (observed [1; 2; 3; 4; 5; 6; 7; 8; 9; 10])).
  lia.
Defined.

(** The two sides of the threshold on concrete ticks: ten new ports raise
    the alert, nine do not, and a key seen 30 seconds ago is not counted. *)
Example ten_new_ports :
  fst (detectPortScanning 1000000 (observed [1; 2; 3; 4; 5; 6; 7; 8; 9; 10]) ∅)
  = Some (ScanAlert port_scan critical
            "Possible port scanning detected: 10 new ports opened"
            [1; 2; 3; 4; 5; 6; 7; 8; 9; 10]).
Proof. vm_compute. reflexivity. Qed.

Example nine_new_ports :
  fst (detectPortScanning 1000000 (observed [1; 2; 3; 4; 5; 6; 7; 8; 9]) ∅) = None.
Proof. vm_compute. reflexivity. Qed.

(** What the clock hypothesis of C1 is for: at the epoch itself the
    timestamp just written is [0], which the source's test on [lastSeen]
    takes for a missing entry, so a key observed twice is pushed twice. *)
Example repeated_key_at_epoch :
  fst (fold_left (scanStep 0) (observed [80; 80]) ([], ∅)) = [80; 80].
Proof. vm_compute. reflexivity. Qed.

Example repeated_key_later :
  fst (fold_left (scanStep 1000000) (observed [80; 80]) ([], ∅)) = [80].
Proof. vm_compute. reflexivity. Qed.

Example ten_ports_one_recent :
  fst (detectPortScanning 1000000 (observed [1; 2; 3; 4; 5; 6; 7; 8; 9; 10])
         (<["10_tcp" := 970000]> ∅)) = None.
Proof. vm_compute. reflexivity. Qed.

(** C9.  After a call of the detector made at time [now], every key left
    in the history map has a last-seen timestamp no older than 300 seconds
    before [now]: the sweep has evicted the older ones. *)
Theorem history_within_window
    (now : Z) (records : list PortRecord) (history : gmap string Z)
    (k : string) (t : Z) :
  snd (detectPortScanning now records history) !! k = Some t ->
  now - t <= 300000.
Proof.
  unfold detectPortScanning.
  destruct (fold_left (scanStep now) records ([], history)) as [recent history1].
  assert (Hsweep : sweep now history1 !! k = Some t -> now - t <= 300000).
  { unfold sweep. intros H. apply map_lookup_filter_Some in H.
    destruct H as [_ H]. cbn in H. lia. }
  destruct (_ <=? _)%nat; cbn [snd]; exact Hsweep.
Qed.

Lemma history_within_window_witness :
  snd (detectPortScanning 1000000 [ClassifierFacts.nginx80]
         (<["22_tcp" := 800000]> (<["21_tcp" := 5]> ∅))) !! "22_tcp" = Some 800000 /\
  1000000 - 800000 <= 300000.
Proof.
  assert (H : snd (detectPortScanning 1000000 [ClassifierFacts.nginx80]
                     (<["22_tcp" := 800000]> (<["21_tcp" := 5]> ∅))) !! "22_tcp"
              = Some 800000) by (vm_compute; reflexivity).
  split; [exact H|].
  exact (history_within_window 1000000 [ClassifierFacts.nginx80]
           (<["22_tcp" := 800000]> (<["21_tcp" := 5]> ∅)) "22_tcp" 800000 H).
Defined.

(** The sweep removes exactly the entries older than the window and keeps
    the others untouched. *)
Lemma sweep_lookup (now : Z) (history : gmap string Z) (k : string) :
  sweep now history !! k
  = match history !! k with
    | Some t => if decide (now - t > 300000) then None else Some t
    | None => None
    end.
Proof.
  unfold sweep. destruct (history !! k) as [t|] eqn:Hk.
  - case_decide as Hold.
    + apply map_lookup_filter_None. right. intros t' Ht'. cbn.
      assert (t' = t) as -> by congruence. tauto.
    + apply map_lookup_filter_Some. split; [assumption|]. cbn. assumption.
  - apply map_lookup_filter_None. left. assumption.
Qed.

Example stale_key_evicted :
  snd (detectPortScanning 1000000 [ClassifierFacts.nginx80] (<["22_tcp" := 5]> ∅))
    !! "22_tcp" = None.
Proof. vm_compute. reflexivity. Qed.

End DetectorFacts.

(** ** Acquisition: the fallback chain of [getActivePorts] *)

Module AcquisitionFacts.
Import PortMonitor.
Local Open Scope Z_scope.

Lemma getActivePorts_body_failure clock e1 e2 st :
  getActivePorts_body clock (Thrown e1) (Thrown e2) st = (Returned (cachedPorts st), st).
Proof.
  unfold getActivePorts_body. cbn [try_catch].
  destruct (_ && _); reflexivity.
Qed.

Lemma getActivePorts_returns clock ss netstat st :
  exists ports, fst (getActivePorts clock ss netstat st) = Returned ports.
Proof.
  unfold getActivePorts.
  destruct (getActivePorts_body clock ss netstat st) as [[ports|e] st'];
    cbn [fst]; eexists; reflexivity.
Qed.

(** C8.  When the primary and the secondary command both fail,
    [getActivePorts] returns the cached port list, which is the empty list
    on a fresh instance, and leaves the instance as it was; and whatever the
    two commands do, the call returns a list and throws nothing. *)
Theorem getActivePorts_falls_back_to_cache
    (clock : Clock) (e1 e2 : string) (st : State) :
  getActivePorts clock (Thrown e1) (Thrown e2) st = (Returned (cachedPorts st), st) /\
  getActivePorts clock (Thrown e1) (Thrown e2) initial = (Returned [], initial) /\
  (forall ss netstat, exists ports,
      fst (getActivePorts clock ss netstat st) = Returned ports).
Proof.
  unfold getActivePorts at 1 2. rewrite !getActivePorts_body_failure.
  repeat split. intros ss netstat. apply getActivePorts_returns.
Qed.

(** The other arms of the chain: a fresh, non-empty cache is served without
    running a command, and the secondary command is used when only the
    primary one fails. *)
Lemma getActivePorts_fresh_cache clock ss netstat st :
  clock 0%nat - lastUpdate st < cacheTimeout st ->
  cachedPorts st <> [] ->
  getActivePorts clock ss netstat st = (Returned (cachedPorts st), st).
Proof.
  intros Hfresh Hne. unfold getActivePorts, getActivePorts_body.
  apply Z.ltb_lt in Hfresh. rewrite Hfresh.
  destruct (cachedPorts st) as [|r l] eqn:Hc; [congruence|]. reflexivity.
Qed.

Lemma getActivePorts_secondary clock e1 stdout :
  fst (getActivePorts clock (Thrown e1) (Returned stdout) initial)
  = Returned (parsePortOutput (shift 1 clock) stdout).
Proof.
  unfold getActivePorts, getActivePorts_body. cbn [initial cachedPorts length].
  rewrite andb_false_r. reflexivity.
Qed.

End AcquisitionFacts.

(** ** Retention *)

Module RetentionFacts.
Import Database.
Local Open Scope Z_scope.

Lemma cleanup_succeeding (fails : nat -> bool) (now : Z) (daysToKeep : N) (db : Db) :
  (forall i, (i < 5)%nat -> fails i = false) ->
  cleanup fails now daysToKeep db
  = mkDb
      (delete_where (fun r => ps_timestamp r <? horizon now daysToKeep) (port_snapshots db))
      (delete_where (fun r => ts_timestamp r <? horizon now daysToKeep) (traffic_stats db))
      (delete_where (fun r => (al_resolved r =? 1)
                              && (al_timestamp r <? horizon now daysToKeep))
                    (security_alerts db))
      (delete_where (fun r => cn_timestamp r <? horizon now daysToKeep) (connections db)).
Proof.
  intros Hok. unfold cleanup, queries, cleanupLoop, run.
  rewrite !Hok by lia. reflexivity.
Qed.

Lemma delete_where_In {A : Type} (cond : A -> bool) (rows : list A) (r : A) :
  In r (delete_where cond rows) <-> In r rows /\ cond r = false.
Proof.
  unfold delete_where. rewrite filter_In, negb_true_iff. reflexivity.
Qed.

(** C3, as the code has it.  When its statements succeed, [cleanup] with a
    horizon of [daysToKeep] days removes from [port_snapshots],
    [traffic_stats] and [connections] exactly the rows whose timestamp is
    strictly older than the horizon, and from [security_alerts] exactly the
    rows that are resolved and strictly older than the horizon: a row at or
    after the horizon stays in every table, and so does an unresolved alert
    of any age. *)
Theorem cleanup_retention
    (fails : nat -> bool) (now : Z) (daysToKeep : N) (db : Db) :
  (forall i, (i < 5)%nat -> fails i = false) ->
  let db' := cleanup fails now daysToKeep db in
  let h := horizon now daysToKeep in
  (forall r, In r (port_snapshots db') <-> In r (port_snapshots db) /\ h <= ps_timestamp r) /\
  (forall r, In r (traffic_stats db') <-> In r (traffic_stats db) /\ h <= ts_timestamp r) /\
  (forall r, In r (connections db') <-> In r (connections db) /\ h <= cn_timestamp r) /\
  (forall r, In r (security_alerts db') <->
             In r (security_alerts db) /\ (al_resolved r <> 1 \/ h <= al_timestamp r)).
Proof.
  intros Hok db' h. subst db'. rewrite cleanup_succeeding by assumption.
  cbn [port_snapshots traffic_stats connections security_alerts]. fold h.
  assert (Hgen : forall (A : Type) (ts : A -> Z) (rows : list A) (r : A),
             In r (delete_where (fun x => ts x <? h) rows) <-> In r rows /\ h <= ts r).
  { intros A ts rows r. rewrite delete_where_In, Z.ltb_ge. reflexivity. }
  split; [|split; [|split]]; intros r.
  - apply (Hgen _ ps_timestamp).
  - apply (Hgen _ ts_timestamp).
  - apply (Hgen _ cn_timestamp).
  - rewrite delete_where_In, andb_false_iff, Z.eqb_neq, Z.ltb_ge. reflexivity.
Qed.

Definition old_unresolved : security_alert :=
  {| al_id := 1; al_timestamp := 0; al_type := "dangerous_port";
     al_severity := "critical"; al_message := "telnet"; al_port := Some 23;
     al_process := Some "telnetd"; al_resolved := 0 |}.

Definition old_resolved : security_alert :=
  {| al_id := 2; al_timestamp := 0; al_type := "info";
     al_severity := "low"; al_message := "ssh"; al_port := Some 22;
     al_process := Some "sshd"; al_resolved := 1 |}.

Definition hundred_days : Z := 8640000.

Lemma cleanup_retention_witness :
  let db := mkDb [] [] [old_unresolved; old_resolved] [] in
  let db' := cleanup (fun _ => false) hundred_days 30 db in
  let h := horizon hundred_days 30 in
  (forall r, In r (port_snapshots db') <-> In r (port_snapshots db) /\ h <= ps_timestamp r) /\
  (forall r, In r (traffic_stats db') <-> In r (traffic_stats db) /\ h <= ts_timestamp r) /\
  (forall r, In r (connections db') <-> In r (connections db) /\ h <= cn_timestamp r) /\
  (forall r, In r (security_alerts db') <->
             In r (security_alerts db) /\ (al_resolved r <> 1 \/ h <= al_timestamp r)).
Proof.
  intros db.
  apply (cleanup_retention (fun _ => false) hundred_days 30 db).
  intros i Hi. reflexivity.
Defined.

(** The claim as stated fails on [security_alerts]: an unresolved alert
    that is a hundred days old survives a cleanup with a horizon of thirty
    days (the resolved one of the same age is removed). *)
Lemma cleanup_keeps_old_unresolved_alert :
  al_timestamp old_unresolved < horizon hundred_days 30 /\
  security_alerts
    (cleanup (fun _ => false) hundred_days 30
       (mkDb [] [] [old_unresolved; old_resolved] []))
  = [old_unresolved].
Proof. split; [vm_compute; reflexivity | vm_compute; reflexivity]. Qed.

End RetentionFacts.

(** ** The regular-expression matcher is sound

    [matches r w c c'] says that the pattern [r] accepts the text [w] and
    turns the captures [c] into [c'].  Whatever [run] and [search] return is
    justified by a derivation of it. *)

Module RegexFacts.
Import Regex.

Inductive matches : re -> list ascii -> captures -> captures -> Prop :=
| M_Eps c : matches Eps [] c c
| M_Lit a c : matches (Lit a) [a] c c
| M_LitI a x c :
    Js.upper_char x = Js.upper_char a -> matches (LitI a) [x] c c
| M_Class (p : ascii -> bool) x c : p x = true -> matches (Class p) [x] c c
| M_Plus (p : ascii -> bool) w c :
    w <> [] -> forallb p w = true -> matches (Plus p) w c c
| M_Cat r1 r2 w1 w2 c c1 c2 :
    matches r1 w1 c c1 -> matches r2 w2 c1 c2 -> matches (Cat r1 r2) (w1 ++ w2) c c2
| M_OrL r1 r2 w c c' : matches r1 w c c' -> matches (Or r1 r2) w c c'
| M_OrR r1 r2 w c c' : matches r2 w c c' -> matches (Or r1 r2) w c c'
| M_Group i r w c c' : matches r w c c' -> matches (Group i r) w c ((i, w) :: c').

Lemma plus_run_sound {R : Type} p s (k : list ascii -> option R) res :
  plus_run p s k = Some res ->
  exists w s', s = w ++ s' /\ w <> [] /\ forallb p w = true /\ k s' = Some res.
Proof.
  revert res. induction s as [|c s IH]; intros res; cbn; [discriminate|].
  destruct (p c) eqn:Hp; [|discriminate].
  destruct (plus_run p s k) as [r|] eqn:Hrun.
  - intros [= <-]. destruct (IH r eq_refl) as (w & s' & -> & _ & Hw & Hk).
    exists (c :: w), s'. cbn. rewrite Hp, Hw. repeat split; auto; discriminate.
  - intros Hk. exists [c], s. cbn. rewrite Hp. repeat split; auto; discriminate.
Qed.

Lemma run_sound {R : Type} r :
  forall s caps (k : list ascii -> captures -> option R) res,
    run r s caps k = Some res ->
    exists w s' caps', s = w ++ s' /\ matches r w caps caps' /\ k s' caps' = Some res.
Proof.
  induction r as [|a|a|p|p|r1 IH1 r2 IH2|r1 IH1 r2 IH2|i r0 IH];
    intros s caps k res; cbn [run].
  - intros H. exists [], s, caps. repeat split; [constructor | assumption].
  - destruct s as [|c s]; [discriminate|].
    destruct (Ascii.eqb_spec c a) as [->|]; [|discriminate].
    intros H. exists [a], s, caps. repeat split; [constructor | assumption].
  - destruct s as [|c s]; [discriminate|].
    destruct (Ascii.eqb_spec (Js.upper_char c) (Js.upper_char a)) as [He|]; [|discriminate].
    intros H. exists [c], s, caps. repeat split; [now constructor | assumption].
  - destruct s as [|c s]; [discriminate|].
    destruct (p c) eqn:Hp; [|discriminate].
    intros H. exists [c], s, caps. repeat split; [now constructor | assumption].
  - intros H. apply plus_run_sound in H. destruct H as (w & s' & -> & Hne & Hall & Hk).
    exists w, s', caps. repeat split; [now constructor | assumption].
  - intros H. apply IH1 in H. destruct H as (w1 & s1 & c1 & -> & Hm1 & H).
    apply IH2 in H. destruct H as (w2 & s2 & c2 & -> & Hm2 & H).
    exists (w1 ++ w2), s2, c2. rewrite <- app_assoc.
    repeat split; [econstructor; eassumption | assumption].
  - destruct (run r1 s caps k) as [x|] eqn:H1.
    + intros [= <-]. apply IH1 in H1. destruct H1 as (w & s' & c' & -> & Hm & H).
      exists w, s', c'. repeat split; [now apply M_OrL | assumption].
    + intros H. apply IH2 in H. destruct H as (w & s' & c' & -> & Hm & H).
      exists w, s', c'. repeat split; [now apply M_OrR | assumption].
  - intros H. apply IH in H. destruct H as (w & s' & c' & -> & Hm & H).
    rewrite length_app, Nat.add_sub, take_app_length in H.
    exists w, s', ((i, w) :: c'). repeat split; [now constructor | assumption].
Qed.

Lemma search_sound r s caps :
  search r s = Some caps ->
  exists pre w post, s = pre ++ w ++ post /\ matches r w [] caps.
Proof.
  induction s as [|c s IH]; cbn [search].
  - destruct (run r [] [] _) as [x|] eqn:Hrun; [|discriminate].
    intros [= <-]. apply run_sound in Hrun.
    destruct Hrun as (w & s' & c' & Heq & Hm & [= <-]).
    exists [], w, s'. now split.
  - destruct (run r (c :: s) [] _) as [x|] eqn:Hrun.
    + intros [= <-]. apply run_sound in Hrun.
      destruct Hrun as (w & s' & c' & Heq & Hm & [= <-]).
      exists [], w, s'. now split.
    + intros H. apply IH in H. destruct H as (pre & w & post & -> & Hm).
      exists (c :: pre), w, post. now split.
Qed.

Fixpoint nogroups (r : re) : bool :=
  match r with
  | Group _ _ => false
  | Cat a b | Or a b => nogroups a && nogroups b
  | _ => true
  end.

Lemma matches_nogroups r w c c' : matches r w c c' -> nogroups r = true -> c' = c.
Proof.
  induction 1; cbn [nogroups]; intros Hn; try reflexivity; try discriminate.
  - apply andb_true_iff in Hn. destruct Hn as [H1 H2].
    rewrite IHmatches2, IHmatches1 by assumption. reflexivity.
  - apply andb_true_iff in Hn. destruct Hn as [H1 H2]. auto.
  - apply andb_true_iff in Hn. destruct Hn as [H1 H2]. auto.
Qed.

(** Inversion of a derivation, one pattern constructor at a time. *)
Ltac invert H := inversion H; subst; clear H.

Lemma matches_Cat_inv r1 r2 w c c2 :
  matches (Cat r1 r2) w c c2 ->
  exists w1 w2 c1, w = w1 ++ w2 /\ matches r1 w1 c c1 /\ matches r2 w2 c1 c2.
Proof. intros H. invert H. eauto 6. Qed.

Lemma matches_Lit_inv a w c c' : matches (Lit a) w c c' -> w = [a] /\ c' = c.
Proof. intros H. invert H. auto. Qed.

Lemma matches_Plus_inv p w c c' :
  matches (Plus p) w c c' -> w <> [] /\ forallb p w = true /\ c' = c.
Proof. intros H. invert H. auto. Qed.

Lemma matches_Group_inv i r w c c' :
  matches (Group i r) w c c' -> exists c0, matches r w c c0 /\ c' = (i, w) :: c0.
Proof. intros H. invert H. eauto. Qed.

End RegexFacts.

(** ** The socket-table parser *)

Module ParserFacts.
Import Regex RegexFacts PortMonitor.
Local Open Scope Z_scope.

(** *** Decimal digits and [parseInt] *)

Definition code (c : ascii) : Z := Z.of_nat (nat_of_ascii c).

(** The number that a run of decimal digits denotes, most significant first. *)
Definition dec_from (acc : Z) (l : list ascii) : Z :=
  fold_left (fun a c => a * 10 + (code c - 48)) l acc.
Definition dec (l : list ascii) : Z := dec_from 0 l.

Lemma is_digit_code c : Js.is_digit c = true <-> 48 <= code c <= 57.
Proof.
  unfold Js.is_digit, code. rewrite andb_true_iff, !Nat.leb_le. lia.
Qed.

Lemma digit_value_digit c :
  Js.is_digit c = true -> Js.digit_value 10 c = Some (code c - 48).
Proof.
  intros H. apply is_digit_code in H. unfold Js.digit_value. fold (code c).
  destruct (Z.leb_spec 48 (code c)); [|lia].
  destruct (Z.leb_spec (code c) 57); [|lia]. cbn [andb].
  destruct (Z.ltb_spec (code c - 48) 10); [reflexivity|lia].
Qed.

Lemma parse_digits_digits l acc :
  forallb Js.is_digit l = true ->
  Js.parse_digits 10 (Some acc) l = Some (dec_from acc l).
Proof.
  revert acc. induction l as [|c l IH]; intros acc H; [reflexivity|].
  cbn in H. apply andb_true_iff in H. destruct H as [Hc Hl].
  cbn [Js.parse_digits]. rewrite digit_value_digit by assumption.
  cbn [default]. now rewrite IH.
Qed.

Lemma digit_not (c x : ascii) : Js.is_digit c = true -> Js.is_digit x = false -> Ascii.eqb c x = false.
Proof.
  intros Hc Hx. destruct (Ascii.eqb_spec c x) as [->|]; [congruence|reflexivity].
Qed.

Lemma digit_not_space c : Js.is_digit c = true -> Js.is_space c = false.
Proof.
  intros H. apply is_digit_code in H. unfold code in H. unfold Js.is_space.
  destruct (Nat.leb_spec 9 (nat_of_ascii c)), (Nat.leb_spec (nat_of_ascii c) 13),
    (Nat.eqb_spec (nat_of_ascii c) 32); cbn; try reflexivity; lia.
Qed.

Lemma parseInt_digits d :
  d <> [] -> forallb Js.is_digit d = true -> Js.parseInt (Js.str d) = Some (dec d).
Proof.
  intros Hne Hd. unfold Js.parseInt, Js.chars, Js.str.
  rewrite String.list_ascii_of_string_of_list_ascii.
  destruct d as [|c d]; [congruence|].
  cbn in Hd. apply andb_true_iff in Hd. destruct Hd as [Hc Hd].
  cbn [Js.skip_space]. rewrite digit_not_space by assumption.
  rewrite !(digit_not c) by (assumption || reflexivity).
  assert (Hr : (match c :: d with
                | c0 :: x :: l' =>
                    if Ascii.eqb c0 "0" && (Ascii.eqb x "x" || Ascii.eqb x "X")
                    then (16, l') else (10, c :: d)
                | _ => (10, c :: d)
                end) = (10, c :: d)).
  { destruct d as [|x d]; [reflexivity|].
    cbn in Hd. apply andb_true_iff in Hd. destruct Hd as [Hx _].
    rewrite !(digit_not x) by (assumption || reflexivity).
    now rewrite andb_false_r. }
  rewrite Hr. cbn [Js.parse_digits]. rewrite digit_value_digit by assumption.
  cbn [default]. rewrite parse_digits_digits by assumption.
  cbn [fmap option_fmap option_map]. f_equal. unfold dec, dec_from. cbn [fold_left]. lia.
Qed.

Lemma dec_from_ge acc l :
  0 <= acc -> forallb Js.is_digit l = true -> acc <= dec_from acc l.
Proof.
  revert acc. induction l as [|c l IH]; intros acc Hacc H; [cbn; lia|].
  cbn in H. apply andb_true_iff in H. destruct H as [Hc Hl].
  apply is_digit_code in Hc. unfold dec_from. cbn [fold_left].
  fold (dec_from (acc * 10 + (code c - 48)) l).
  etransitivity; [|apply IH]; [lia|lia|assumption].
Qed.

Lemma dec_from_app acc l1 l2 : dec_from acc (l1 ++ l2) = dec_from (dec_from acc l1) l2.
Proof. unfold dec_from. apply fold_left_app. Qed.

Lemma dec_nonneg l : forallb Js.is_digit l = true -> 0 <= dec l.
Proof. intros H. now apply (dec_from_ge 0 l). Qed.

Lemma dec_prefix l1 l2 :
  forallb Js.is_digit l1 = true -> forallb Js.is_digit l2 = true ->
  dec l1 <= dec (l1 ++ l2).
Proof.
  intros H1 H2. unfold dec. rewrite dec_from_app.
  apply dec_from_ge; [now apply dec_nonneg | assumption].
Qed.

(** The longest run of decimal digits at the head of a text. *)
Fixpoint digit_run (l : list ascii) : list ascii :=
  match l with
  | c :: l' => if Js.is_digit c then c :: digit_run l' else []
  | [] => []
  end.

(** Every run of digits that directly follows a colon denotes at most
    [bound]. *)
Fixpoint colon_runs_le (bound : Z) (l : list ascii) : bool :=
  match l with
  | [] => true
  | c :: l' =>
      (if Ascii.eqb c ":" then dec (digit_run l') <=? bound else true)
      && colon_runs_le bound l'
  end.

Lemma digit_run_digits l : forallb Js.is_digit (digit_run l) = true.
Proof.
  induction l as [|c l IH]; [reflexivity|]. cbn.
  destruct (Js.is_digit c) eqn:Hc; [|reflexivity]. cbn. now rewrite Hc.
Qed.

Lemma digit_run_app d y :
  forallb Js.is_digit d = true -> digit_run (d ++ y) = d ++ digit_run y.
Proof.
  induction d as [|c d IH]; intros H; [reflexivity|].
  cbn in H. apply andb_true_iff in H. destruct H as [Hc Hd].
  cbn. rewrite Hc. f_equal. now apply IH.
Qed.

Lemma colon_runs_le_sound bound x d y :
  colon_runs_le bound (x ++ ":"%char :: d ++ y) = true ->
  forallb Js.is_digit d = true -> dec d <= bound.
Proof.
  intros H Hd. induction x as [|c x IH].
  - cbn in H. apply andb_true_iff in H. destruct H as [H _].
    apply Z.leb_le in H. rewrite digit_run_app in H by assumption.
    etransitivity; [|exact H]. apply dec_prefix; [assumption|apply digit_run_digits].
  - cbn in H. apply andb_true_iff in H. destruct H as [_ H]. now apply IH.
Qed.

(** *** What the port patterns capture *)

Definition port_capture (w : list ascii) (caps : captures) : Prop :=
  exists a d b,
    w = a ++ ":"%char :: d ++ b /\ caps = [(1%nat, d)] /\
    d <> [] /\ forallb Js.is_digit d = true.

(** [:(\d+)], the part of every port pattern that holds the group. *)
Lemma colon_digits_inv w c c' :
  matches (Cat (Lit ":") (Group 1 (Plus digit))) w c c' ->
  exists d, w = ":"%char :: d /\ c' = (1%nat, d) :: c /\
            d <> [] /\ forallb Js.is_digit d = true.
Proof.
  intros H. apply matches_Cat_inv in H. destruct H as (w1 & d & c1 & -> & H1 & H2).
  apply matches_Lit_inv in H1. destruct H1 as [-> ->].
  apply matches_Group_inv in H2. destruct H2 as (c0 & H2 & ->).
  apply matches_Plus_inv in H2. destruct H2 as (Hne & Hd & ->).
  exists d. repeat split; assumption.
Qed.

Lemma port_capture_core T w caps :
  nogroups T = true ->
  matches (Cat (Lit ":") (Cat (Group 1 (Plus digit)) T)) w [] caps ->
  port_capture w caps.
Proof.
  intros HT H. apply matches_Cat_inv in H. destruct H as (w1 & w2 & c1 & -> & H1 & H).
  apply matches_Cat_inv in H. destruct H as (d & b & c2 & -> & H2 & H3).
  apply matches_nogroups in H3; [|assumption]. subst c2.
  apply matches_Lit_inv in H1. destruct H1 as [-> ->].
  apply matches_Group_inv in H2. destruct H2 as (c0 & H2 & ->).
  apply matches_Plus_inv in H2. destruct H2 as (Hne & Hd & ->).
  exists [], d, b. repeat split; assumption.
Qed.

Lemma port_capture_core0 w caps :
  matches (Cat (Lit ":") (Group 1 (Plus digit))) w [] caps ->
  port_capture w caps.
Proof.
  intros H. apply colon_digits_inv in H. destruct H as (d & -> & -> & Hne & Hd).
  exists [], d, []. rewrite app_nil_r. repeat split; assumption.
Qed.

Lemma port_capture_prefix A r w caps :
  nogroups A = true ->
  (forall w', matches r w' [] caps -> port_capture w' caps) ->
  matches (Cat A r) w [] caps -> port_capture w caps.
Proof.
  intros HA Hr H. apply matches_Cat_inv in H. destruct H as (w1 & w2 & c1 & -> & H1 & H2).
  apply matches_nogroups in H1; [|assumption]. subst c1.
  destruct (Hr _ H2) as (a & d & b & -> & Hc & Hne & Hd).
  exists (w1 ++ a), d, b. rewrite <- app_assoc. repeat split; assumption.
Qed.

Lemma portPatterns_capture pat w caps :
  In pat PortMonitor.portPatterns -> matches pat w [] caps -> port_capture w caps.
Proof.
  intros [<-|[<-|[<-|[]]]]; cbn [seq].
  - apply port_capture_prefix; [reflexivity|]. intros w'. apply port_capture_core0.
  - apply port_capture_prefix; [reflexivity|]. intros w'.
    apply port_capture_prefix; [reflexivity|]. intros w''.
    apply port_capture_core. reflexivity.
  - apply port_capture_core. reflexivity.
Qed.


Lemma findPort_sound pats line parsed :
  (forall pat, In pat pats -> In pat portPatterns) ->
  findPort pats line = Some parsed ->
  exists x d y,
    Js.chars line = x ++ ":"%char :: d ++ y /\ d <> [] /\
    forallb Js.is_digit d = true /\ parsed = Some (dec d).
Proof.
  induction pats as [|pat rest IH]; intros Hin; cbn [findPort]; [discriminate|].
  assert (Hrest : forall p, In p rest -> In p portPatterns) by (intros; apply Hin; now right).
  destruct (exec pat line) as [m|] eqn:Hexec; [|now apply IH].
  unfold exec in Hexec. apply search_sound in Hexec.
  destruct Hexec as (pre & w & post & Hline & Hm).
  apply portPatterns_capture in Hm; [|apply Hin; now left].
  destruct Hm as (a & d & b & -> & -> & Hne & Hd).
  unfold group. cbn [List.find fst snd Nat.eqb fmap option_fmap option_map].
  destruct d as [|c d]; [congruence|].
  cbn [Js.str String.string_of_list_ascii Js.truthy].
  intros [= <-]. exists (pre ++ a), (c :: d), (b ++ post).
  split; [|split; [assumption|split; [assumption|]]].
  - rewrite Hline. repeat (rewrite <- app_assoc; cbn [app]). reflexivity.
  - now apply (parseInt_digits (c :: d)).
Qed.

Lemma split_head sep s : exists w ws y, Js.split sep s = w :: ws /\ s = w ++ y.
Proof.
  induction s as [|c s (w & ws & y & Hs & Hy)]; cbn [Js.split].
  - exists [], [], []. now split.
  - destruct (Ascii.eqb c sep).
    + exists [], (Js.split sep s), (c :: s). now split.
    + rewrite Hs. exists (c :: w), ws, y. split; [reflexivity|]. cbn. now f_equal.
Qed.

Lemma split_In sep s l : In l (Js.split sep s) -> exists x y, s = x ++ l ++ y.
Proof.
  revert l. induction s as [|c s IH]; intros l; cbn [Js.split].
  - intros [<-|[]]. exists [], []. reflexivity.
  - destruct (Ascii.eqb c sep).
    + intros [<-|Hin].
      * exists [], (c :: s). reflexivity.
      * destruct (IH _ Hin) as (x & y & ->). exists (c :: x), y. reflexivity.
    + destruct (split_head sep s) as (w & ws & y & Hs & Hy). rewrite Hs.
      intros [<-|Hin].
      * exists [], y. cbn. now f_equal.
      * destruct (IH l) as (x & y' & ->); [rewrite Hs; now right|].
        exists (c :: x), y'. reflexivity.
Qed.

Lemma lines_In text line :
  In line (lines text) -> exists x y, Js.chars text = x ++ Js.chars line ++ y.
Proof.
  unfold lines. rewrite in_map_iff. intros (l & <- & Hin).
  apply filter_In in Hin. destruct Hin as [Hin _].
  unfold Js.chars at 2, Js.str. rewrite String.list_ascii_of_string_of_list_ascii.
  now apply split_In in Hin.
Qed.

(** What an iteration of the loop over the lines can do. *)
Lemma parseLine_cases clock st line :
  parseLine clock st line = st \/
  exists r x d y,
    parseLine clock st line
    = mkParse (ports st ++ [r])
              ({[ protocol r +:+ "-" +:+ pretty (port r) ]} ∪ seenPorts st)
              (S (reads st)) /\
    (protocol r = "tcp" \/ protocol r = "udp") /\
    Js.chars line = x ++ ":"%char :: d ++ y /\
    forallb Js.is_digit d = true /\ port r = dec d /\ 1 <= dec d /\
    timestamp r = clock (reads st).
Proof.
  unfold parseLine.
  destruct (_ || _); [now left|].
  destruct (if Js.includes line "tcp" then _ else _) as [proto|] eqn:Hproto; [|now left].
  assert (Hp : proto = "tcp" \/ proto = "udp").
  { destruct (Js.includes line "tcp"); [injection Hproto as <-; now left|].
    destruct (Js.includes line "udp"); [injection Hproto as <-; now right|discriminate]. }
  destruct (findPort portPatterns line) as [parsed|] eqn:Hfind; [|now left].
  apply findPort_sound in Hfind; [|auto].
  destruct Hfind as (x & d & y & Hline & Hne & Hd & ->).
  unfold truthy_int, Js.truthy_num.
  change (default 0 (Some (dec d))) with (dec d).
  destruct (Z.eqb_spec (dec d) 0) as [|Hnz]; [now left|]. cbn [negb].
  case_bool_decide; [now left|].
  destruct (findProcess 0 processPatterns line) as [process0 pid0].
  right. eexists (mkPort _ _ _ _ _ _), x, d, y.
  split; [reflexivity|]. cbn [protocol port timestamp].
  repeat split; try assumption.
  pose proof (dec_nonneg d Hd). lia.
Qed.

Lemma insert_by_In {A : Type} (key : A -> Z) (x y : A) (l : list A) :
  In x (Js.insert_by key y l) <-> x = y \/ In x l.
Proof.
  induction l as [|z l IH]; cbn [Js.insert_by].
  - cbn. intuition.
  - destruct (key z <? key y); cbn [In]; [rewrite IH|]; intuition.
Qed.

Lemma sort_by_In {A : Type} (key : A -> Z) (x : A) (l : list A) :
  In x (Js.sort_by key l) <-> In x l.
Proof.
  induction l as [|y l IH]; cbn [Js.sort_by]; [reflexivity|].
  rewrite insert_by_In, IH. cbn. intuition.
Qed.

Lemma insert_by_map {A B : Type} (f : A -> B) (key : A -> Z) (key' : B -> Z) x l :
  (forall a, key' (f a) = key a) ->
  map f (Js.insert_by key x l) = Js.insert_by key' (f x) (map f l).
Proof.
  intros Hk. induction l as [|y l IH]; cbn [Js.insert_by map]; [reflexivity|].
  rewrite !Hk. destruct (key y <? key x); cbn [map]; [now rewrite IH|reflexivity].
Qed.

Lemma sort_by_map {A B : Type} (f : A -> B) (key : A -> Z) (key' : B -> Z) l :
  (forall a, key' (f a) = key a) ->
  map f (Js.sort_by key l) = Js.sort_by key' (map f l).
Proof.
  intros Hk. induction l as [|y l IH]; cbn [Js.sort_by map]; [reflexivity|].
  now rewrite (insert_by_map f key key'), IH.
Qed.

(** The port of a record is the number denoted by a run of digits that
    directly follows a colon somewhere in the text. *)
Definition untimed_sample (r : PortRecord) : Z * string * string :=
  (port r, protocol r, process r).

Definition after_colon (text : string) (p : Z) : Prop :=
  exists x d y,
    Js.chars text = x ++ ":"%char :: d ++ y /\
    forallb Js.is_digit d = true /\ p = dec d.

Definition record_ok (text : string) (r : PortRecord) : Prop :=
  1 <= port r /\ (protocol r = "tcp" \/ protocol r = "udp") /\ after_colon text (port r).

Lemma parseLoop_ok clock text ls st :
  (forall line, In line ls -> In line (lines text)) ->
  Forall (record_ok text) (ports st) ->
  Forall (record_ok text) (ports (fold_left (parseLine clock) ls st)).
Proof.
  revert st. induction ls as [|line ls IH]; intros st Hls Hst; [exact Hst|].
  cbn [fold_left]. apply IH; [intros; apply Hls; now right|].
  destruct (parseLine_cases clock st line)
    as [->|(r & x & d & y & -> & Hproto & Hline & Hd & Hport & Hpos & _)];
    [exact Hst|].
  cbn [ports]. apply Forall_app. split; [exact Hst|].
  constructor; [|constructor].
  destruct (lines_In text line) as (X & Y & Htext); [apply Hls; now left|].
  repeat split; [lia|assumption|].
  exists (X ++ x), d, (y ++ Y). repeat split; [|assumption|assumption].
  rewrite Htext, Hline. repeat (rewrite <- app_assoc; cbn [app]). reflexivity.
Qed.

Lemma parsePortOutput_ok clock text r :
  In r (parsePortOutput clock text) -> record_ok text r.
Proof.
  unfold parsePortOutput, parseLoop. rewrite sort_by_In. intros Hin.
  pose proof (parseLoop_ok clock text (lines text) (mkParse [] ∅ 0)
                (fun _ H => H) (Forall_nil_2 _)) as Hall.
  rewrite Forall_forall in Hall. apply Hall. now apply list_elem_of_In.
Qed.

(** Sample lines of the two grammars, as the unit tests give them. *)
Definition ss_users (name : string) (pid : string) : string :=
  "users:((" +:+ Js.dq +:+ name +:+ Js.dq +:+ ",pid=" +:+ pid +:+ ",fd=3))".

Definition ss_sshd : string :=
  "tcp   LISTEN 0      128          0.0.0.0:22             0.0.0.0:*    "
  +:+ ss_users "sshd" "1234".

Definition ss_resolved : string :=
  "udp   UNCONN 0      0            127.0.0.1:53           0.0.0.0:*    "
  +:+ ss_users "systemd-resolved" "9012".

Definition netstat_nginx : string :=
  "tcp        0      0 0.0.0.0:80              0.0.0.0:*               LISTEN      5678/nginx".

Definition newline : string := String "010" "".

Definition ss_sample : string :=
  "Netid State  Recv-Q Send-Q Local Address:Port Peer Address:Port Process" +:+ newline
  +:+ ss_sshd +:+ newline +:+ ss_resolved +:+ newline.

(** The scenario of the specification: the sshd line of ss. *)
Example parse_ss_sshd :
  parsePortOutput (fun _ => 1000) ss_sshd
  = [mkPort 22 "tcp" "sshd" (Some 1234) "0.0.0.0" 1000].
Proof. vm_compute. reflexivity. Qed.

Example parse_ss_sample :
  map untimed_sample (parsePortOutput (fun _ => 1000) ss_sample)
  = [(22, "tcp", "sshd"); (53, "udp", "systemd-resolved")].
Proof. vm_compute. reflexivity. Qed.

Example parse_netstat_nginx :
  parsePortOutput (fun _ => 1000) netstat_nginx
  = [mkPort 80 "tcp" "nginx" (Some 5678) "0.0.0.0" 1000].
Proof. vm_compute. reflexivity. Qed.

(** A line that ss prints for a listener on a specific address owned by a
    process whose name is [*:70000]: no port pattern matches the address
    columns, and the first pattern then matches inside the process column. *)
Definition ss_spoof : string :=
  "tcp   LISTEN 0      128      192.168.1.5:8080      0.0.0.0:*    "
  +:+ ss_users "*:70000" "4242".

(** C7.  The claim fails on that line.  The record returned for it carries
    port 70000, outside [1, 65535]: the number was read from the process
    column, while the address of the same record comes from the socket
    192.168.1.5:8080 that the line really describes.  The pattern of
    [addressMatch], applied to the same line, does capture 8080 as its
    second group, which the parser does not use. *)
Lemma parse_ss_spoof_out_of_range :
  parsePortOutput (fun _ => 1000) ss_spoof
  = [mkPort 70000 "tcp" "*:70000" (Some 4242) "192.168.1.5" 1000] /\
  ~ (1 <= 70000 <= 65535) /\
  findPort portPatterns ss_spoof = Some (Some 70000) /\
  findAddress ss_spoof = Some "192.168.1.5" /\
  exec addressPattern ss_spoof ≫= group 2 = Some "8080".
Proof.
  split; [vm_compute; reflexivity|]. split; [lia|].
  repeat split; vm_compute; reflexivity.
Qed.

(** The bounds that the parser does keep, for every input text: every
    record returned by [parsePortOutput] has a port of at least 1 and the
    protocol [tcp] or [udp].  The parser applies no upper bound to the
    port: it is the number after a colon that the first matching pattern
    captured, so it is at most 65535 provided every run of digits that
    directly follows a colon in the text denotes a number of at most
    65535. *)
Lemma parsed_port_bounds (clock : Clock) (text : string) (r : PortRecord) :
  In r (parsePortOutput clock text) ->
  1 <= port r /\
  (protocol r = "tcp" \/ protocol r = "udp") /\
  (colon_runs_le 65535 (Js.chars text) = true -> port r <= 65535).
Proof.
  intros Hin. apply parsePortOutput_ok in Hin.
  destruct Hin as (Hlo & Hproto & x & d & y & Htext & Hd & Hport).
  repeat split; try assumption.
  intros Hruns. rewrite Hport. rewrite Htext in Hruns.
  now apply (colon_runs_le_sound 65535 x d y).
Qed.

Definition untimed (r : PortRecord) : Z * string * string * option Z * string :=
  (port r, protocol r, process r, pid r, address r).

Lemma parseLine_untimed c1 c2 st1 st2 line :
  map untimed (ports st1) = map untimed (ports st2) ->
  seenPorts st1 = seenPorts st2 ->
  map untimed (ports (parseLine c1 st1 line)) = map untimed (ports (parseLine c2 st2 line)) /\
  seenPorts (parseLine c1 st1 line) = seenPorts (parseLine c2 st2 line).
Proof.
  intros Hports Hseen. unfold parseLine. rewrite Hseen.
  destruct (_ || _); [now split|].
  destruct (if Js.includes line "tcp" then _ else _) as [proto|]; [|now split].
  destruct (findPort portPatterns line) as [parsed|]; [|now split].
  destruct (negb (truthy_int parsed)); [now split|].
  case_bool_decide; [now split|].
  destruct (findProcess 0 processPatterns line) as [process0 pid0].
  cbn [ports seenPorts]. split; [|reflexivity].
  rewrite !map_app, Hports. reflexivity.
Qed.

Lemma parseLoop_untimed c1 c2 ls st1 st2 :
  map untimed (ports st1) = map untimed (ports st2) ->
  seenPorts st1 = seenPorts st2 ->
  map untimed (ports (fold_left (parseLine c1) ls st1))
  = map untimed (ports (fold_left (parseLine c2) ls st2)).
Proof.
  revert st1 st2. induction ls as [|line ls IH]; intros st1 st2 Hp Hs; [exact Hp|].
  cbn [fold_left].
  destruct (parseLine_untimed c1 c2 st1 st2 line Hp Hs) as [Hp' Hs'].
  now apply IH.
Qed.

Lemma parseLine_ext c1 c2 st line :
  (forall i, c1 i = c2 i) -> parseLine c1 st line = parseLine c2 st line.
Proof. intros H. unfold parseLine. now rewrite (H (reads st)). Qed.

Lemma parseLoop_ext c1 c2 ls st :
  (forall i, c1 i = c2 i) ->
  fold_left (parseLine c1) ls st = fold_left (parseLine c2) ls st.
Proof.
  intros H. revert st. induction ls as [|line ls IH]; intros st; [reflexivity|].
  cbn [fold_left]. now rewrite (parseLine_ext c1 c2), IH.
Qed.

(** The claim as stated fails on the [timestamp] field: two calls on the
    same line made at different clock readings return different records. *)
Lemma parse_twice_differs :
  parsePortOutput (fun _ => 1000) ss_sshd <> parsePortOutput (fun _ => 2000) ss_sshd.
Proof. vm_compute. discriminate. Qed.

(** C4, as the code has it.  Two calls of [parsePortOutput] on the same
    text return lists of the same length whose records agree, position by
    position, on port, protocol, process, pid and address; only [timestamp],
    which each record takes from the clock when it is pushed, can differ,
    and the two results are equal when the clock readings are. *)
Theorem parse_same_up_to_timestamp (c1 c2 : Clock) (text : string) :
  map untimed (parsePortOutput c1 text) = map untimed (parsePortOutput c2 text) /\
  ((forall i, c1 i = c2 i) -> parsePortOutput c1 text = parsePortOutput c2 text).
Proof.
  unfold parsePortOutput, parseLoop. split.
  - rewrite !(sort_by_map untimed port (fun u => fst (fst (fst (fst u)))))
      by reflexivity.
    f_equal. now apply parseLoop_untimed.
  - intros H. now rewrite (parseLoop_ext c1 c2).
Qed.

End ParserFacts.

(** ** Invariants of the parsed records *)

Module ParserInvariants.
Import Regex RegexFacts PortMonitor ParserFacts.
Local Open Scope Z_scope.

(** *** Sorting *)
Section SortFacts.
Context {A : Type} (key : A -> Z).

Definition ascending : list A -> Prop := StronglySorted (fun a b => key a <= key b).

Lemma insert_by_Forall (P : A -> Prop) x l :
  P x -> Forall P l -> Forall P (Js.insert_by key x l).
Proof.
  intros Hx Hl. induction Hl as [|y l Hy Hl IH]; cbn [Js.insert_by].
  - constructor; [assumption|constructor].
  - destruct (key y <? key x); constructor; auto.
Qed.

Lemma insert_by_ascending x l : ascending l -> ascending (Js.insert_by key x l).
Proof.
  intros Hl. induction Hl as [|y l Hl IH Hy]; cbn [Js.insert_by].
  - repeat constructor.
  - destruct (Z.ltb_spec (key y) (key x)) as [Hlt|Hge].
    + constructor; [assumption|].
      apply insert_by_Forall; [lia|assumption].
    + constructor; [now constructor|].
      constructor; [lia|].
      eapply Forall_impl; [exact Hy|]. cbn. intros z Hz. lia.
Qed.

Lemma sort_by_ascending l : ascending (Js.sort_by key l).
Proof.
  induction l as [|x l IH]; cbn [Js.sort_by]; [constructor|].
  now apply insert_by_ascending.
Qed.

Lemma insert_by_Permutation x l : Js.insert_by key x l ≡ₚ x :: l.
Proof.
  induction l as [|y l IH]; cbn [Js.insert_by]; [reflexivity|].
  destruct (key y <? key x); [|reflexivity].
  rewrite IH. apply perm_swap.
Qed.

Lemma sort_by_Permutation l : Js.sort_by key l ≡ₚ l.
Proof.
  induction l as [|x l IH]; cbn [Js.sort_by]; [reflexivity|].
  now rewrite insert_by_Permutation, IH.
Qed.

(** Stability: records with the same key keep their relative order. *)
Lemma insert_by_filter (f : A -> bool) x l :
  (forall y, f y = true -> f x = true -> key y = key x) ->
  List.filter f (Js.insert_by key x l) = List.filter f (x :: l).
Proof.
  intros Hk. induction l as [|y l IH]; cbn [Js.insert_by]; [reflexivity|].
  destruct (Z.ltb_spec (key y) (key x)) as [Hlt|Hge]; [|reflexivity].
  cbn [List.filter] in *. rewrite IH.
  destruct (f y) eqn:Hy, (f x) eqn:Hx; try reflexivity.
  specialize (Hk y Hy eq_refl). lia.
Qed.

Lemma sort_by_stable (v : Z) l :
  List.filter (fun a => key a =? v) (Js.sort_by key l)
  = List.filter (fun a => key a =? v) l.
Proof.
  induction l as [|x l IH]; cbn [Js.sort_by]; [reflexivity|].
  rewrite insert_by_filter.
  - cbn [List.filter]. now rewrite IH.
  - intros y Hy Hx. apply Z.eqb_eq in Hy, Hx. congruence.
Qed.
End SortFacts.

(** X1.  The list returned by [parsePortOutput] is in ascending order of
    port, holds exactly the records pushed by the loop over the lines, and
    keeps records of equal port in the order of their lines. *)
Theorem parsePortOutput_ascending (clock : Clock) (text : string) :
  StronglySorted (fun a b => port a <= port b) (parsePortOutput clock text) /\
  parsePortOutput clock text ≡ₚ ports (parseLoop clock text) /\
  (forall v, List.filter (fun r => port r =? v) (parsePortOutput clock text)
             = List.filter (fun r => port r =? v) (ports (parseLoop clock text))).
Proof.
  unfold parsePortOutput. split; [|split].
  - apply sort_by_ascending.
  - apply sort_by_Permutation.
  - intros v. apply sort_by_stable.
Qed.

(** *** Capture groups in general *)

Definition digits (v : list ascii) : Prop := v <> [] /\ forallb Js.is_digit v = true.

Fixpoint groups_ok (P : nat -> list ascii -> Prop) (r : re) : Prop :=
  match r with
  | Cat a b | Or a b => groups_ok P a /\ groups_ok P b
  | Group i r0 => (forall w c c', matches r0 w c c' -> P i w) /\ groups_ok P r0
  | _ => True
  end.

Lemma matches_groups P r w c c' :
  matches r w c c' -> groups_ok P r ->
  (forall i v, In (i, v) c -> P i v) -> forall i v, In (i, v) c' -> P i v.
Proof.
  induction 1 as [c|a c|a x c Hx|p x c Hp|p w c Hne Hall
                  |r1 r2 w1 w2 c c1 c2 H1 IH1 H2 IH2
                  |r1 r2 w c c' H1 IH1|r1 r2 w c c' H2 IH2|j r w c c' H1 IH1];
    cbn [groups_ok]; intros Hok Hc; try exact Hc.
  - destruct Hok as [Ha Hb]. apply IH2; [assumption|]. now apply IH1.
  - destruct Hok as [Ha Hb]. now apply IH1.
  - destruct Hok as [Ha Hb]. now apply IH2.
  - destruct Hok as [Hj Hr]. intros i v [Heq|Hin].
    + injection Heq as <- <-. eapply Hj. eassumption.
    + eapply IH1; eassumption.
Qed.

Lemma group_In i m g : group i m = Some g -> exists v, g = Js.str v /\ In (i, v) m.
Proof.
  unfold group. destruct (List.find _ m) as [[j v]|] eqn:Hf; [|discriminate].
  intros [= <-]. apply find_some in Hf. destruct Hf as [Hin Hj].
  apply Nat.eqb_eq in Hj. cbn in Hj. subst j. now exists v.
Qed.

Lemma exec_groups P r line m :
  groups_ok P r -> exec r line = Some m -> forall i v, In (i, v) m -> P i v.
Proof.
  intros Hok Hexec. apply search_sound in Hexec.
  destruct Hexec as (pre & w & post & _ & Hm).
  eapply matches_groups; [exact Hm|exact Hok|]. intros i v [].
Qed.

Ltac solve_groups_ok :=
  cbn;
  repeat match goal with
         | |- _ /\ _ => apply conj
         | |- True => exact I
         | |- forall w c c', matches _ w c c' -> _ =>
             let Hm := fresh "Hm" in
             intros ? ? ? Hm ?; try discriminate;
             apply matches_Plus_inv in Hm; destruct Hm as (? & ? & _);
             split; assumption
         end.

Lemma parseInt_group (P : nat -> list ascii -> Prop) i m g :
  (forall j v, In (j, v) m -> P j v) -> (forall v, P i v -> digits v) ->
  group i m = Some g -> exists d, digits d /\ Js.parseInt g = Some (dec d).
Proof.
  intros Hm HP Hg. apply group_In in Hg. destruct Hg as (v & -> & Hin).
  destruct (HP v (Hm _ _ Hin)) as [Hne Hd].
  exists v. split; [now split|]. now apply parseInt_digits.
Qed.

Definition pid_nonneg (pid : option Z) : Prop := forall v, pid = Some v -> 0 <= v.

Lemma findProcess_pid_from i pats line :
  (forall j pat, nth_error pats j = Some pat ->
     if Nat.eqb (i + j) 1
     then groups_ok (fun k v => k = 1%nat -> digits v) pat
     else groups_ok (fun k v => k = 2%nat -> digits v) pat) ->
  pid_nonneg (snd (findProcess i pats line)).
Proof.
  assert (Hnone : pid_nonneg None) by (intros v; discriminate).
  assert (Hdig : forall g d, digits d -> Js.parseInt g = Some (dec d) ->
                             pid_nonneg (Js.parseInt g)).
  { intros g d [_ Hd] -> v [= <-]. now apply dec_nonneg. }
  revert i. induction pats as [|pat rest IH]; intros i Hpats; [exact Hnone|].
  cbn [findProcess].
  pose proof (Hpats 0%nat pat eq_refl) as Hpat. rewrite Nat.add_0_r in Hpat.
  destruct (exec pat line) as [m|] eqn:Hexec.
  - destruct (Nat.eqb i 1).
    + cbn [snd]. destruct (group 1 m) as [g|] eqn:Hg; [|exact Hnone].
      cbn [mbind option_bind].
      destruct (parseInt_group _ 1 m g (exec_groups _ _ _ _ Hpat Hexec)
                  (fun v H => H eq_refl) Hg) as (d & Hd & Hp).
      now apply (Hdig g d).
    + destruct (group 2 m) as [g2|] eqn:Hg; [|exact Hnone].
      destruct (Js.truthy g2); [|exact Hnone]. cbn [snd].
      destruct (parseInt_group _ 2 m g2 (exec_groups _ _ _ _ Hpat Hexec)
                  (fun v H => H eq_refl) Hg) as (d & Hd & Hp).
      now apply (Hdig g2 d).
  - apply IH. intros j p Hj. specialize (Hpats (S j) p Hj).
    now rewrite Nat.add_succ_r in Hpats.
Qed.

Lemma findProcess_pid line :
  pid_nonneg (snd (findProcess 0 processPatterns line)).
Proof.
  apply findProcess_pid_from. intros j pat Hj.
  destruct j as [|[|[|[|[|j]]]]]; cbn in Hj; try discriminate;
    injection Hj as <-; cbn [Nat.add Nat.eqb]; solve_groups_ok.
Qed.

(** *** Keys and fields of the parsed records *)

Definition portKey (r : PortRecord) : string := protocol r +:+ "-" +:+ pretty (port r).

Definition fields_ok (r : PortRecord) : Prop :=
  process r <> "" /\ address r <> "" /\ (forall v, pid r = Some v -> 1 <= v).

Lemma or_else_nonempty s d : d <> "" -> Js.or_else s d <> "".
Proof. unfold Js.or_else. destruct s; cbn; [auto|discriminate]. Qed.

Lemma parseLine_step clock st line :
  parseLine clock st line = st \/
  exists r,
    parseLine clock st line
    = mkParse (ports st ++ [r]) (({[ portKey r ]} : gset string) ∪ seenPorts st)
              (S (reads st)) /\
    (portKey r ∉ seenPorts st) /\ fields_ok r.
Proof.
  unfold parseLine.
  destruct (_ || _); [now left|].
  destruct (if Js.includes line "tcp" then _ else _) as [proto|]; [|now left].
  destruct (findPort portPatterns line) as [parsed|]; [|now left].
  destruct (negb (truthy_int parsed)); [now left|].
  case_bool_decide as Hseen; [now left|].
  pose proof (findProcess_pid line) as Hpid.
  destruct (findProcess 0 processPatterns line) as [process0 pid0]. cbn [snd] in Hpid.
  right. eexists (mkPort _ _ _ _ _ _). split; [reflexivity|].
  split; [exact Hseen|]. unfold fields_ok. cbn [process address pid].
  split; [apply or_else_nonempty; discriminate|].
  split; [apply or_else_nonempty; discriminate|].
  intros v. destruct (Js.truthy_num pid0) eqn:Ht; [|discriminate].
  intros ->. specialize (Hpid v eq_refl). cbn in Ht.
  apply negb_true_iff, Z.eqb_neq in Ht. lia.
Qed.

Lemma parseLoop_keys clock ls st :
  (forall r, In r (ports st) -> portKey r ∈ seenPorts st) ->
  NoDup (map portKey (ports st)) ->
  Forall fields_ok (ports st) ->
  let st' := fold_left (parseLine clock) ls st in
  NoDup (map portKey (ports st')) /\ Forall fields_ok (ports st').
Proof.
  revert st. induction ls as [|line ls IH]; intros st Hseen Hnd Hf; [now split|].
  cbn [fold_left].
  destruct (parseLine_step clock st line) as [->|(r & -> & Hfresh & Hr)];
    [now apply IH|].
  apply IH; cbn [ports seenPorts].
  - intros r' Hin. apply in_app_or in Hin. destruct Hin as [Hin|[<-|[]]].
    + apply elem_of_union_r. now apply Hseen.
    + apply elem_of_union_l. now apply elem_of_singleton.
  - rewrite map_app. cbn [map]. apply NoDup_app. split; [assumption|].
    split; [|apply NoDup_singleton].
    intros k Hk Hk'. apply list_elem_of_singleton in Hk'. subst k.
    apply list_elem_of_In, in_map_iff in Hk. destruct Hk as (r' & Heq & Hin).
    apply Hfresh. rewrite <- Heq. now apply Hseen.
  - apply Forall_app. split; [assumption|]. now constructor.
Qed.

Lemma parseLoop_invariants clock text :
  NoDup (map portKey (ports (parseLoop clock text))) /\
  Forall fields_ok (ports (parseLoop clock text)).
Proof.
  unfold parseLoop. apply parseLoop_keys; cbn [ports].
  - intros r [].
  - constructor.
  - constructor.
Qed.

Lemma parsePortOutput_portKeys (clock : Clock) (text : string) :
  NoDup (map portKey (parsePortOutput clock text)).
Proof.
  destruct (parseLoop_invariants clock text) as [Hnd _].
  unfold parsePortOutput.
  assert (Hp : map portKey (Js.sort_by port (ports (parseLoop clock text)))
               ≡ₚ map portKey (ports (parseLoop clock text)))
    by apply Permutation_map, sort_by_Permutation.
  now rewrite Hp.
Qed.

(** Records with distinct [seenPorts] keys differ in port or protocol. *)
Lemma distinct_keys_distinct_pairs (l : list PortRecord) :
  NoDup (map portKey l) -> NoDup (map (fun r => (port r, protocol r)) l).
Proof.
  induction l as [|r l IH]; cbn [map]; intros Hk; [constructor|].
  apply NoDup_cons in Hk. destruct Hk as [Hr Hl].
  apply NoDup_cons. split; [|now apply IH].
  intros Hin. apply Hr.
  apply list_elem_of_In, in_map_iff in Hin. destruct Hin as (r' & Heq & Hin).
  apply list_elem_of_In, in_map_iff. exists r'. split; [|assumption].
  injection Heq as Hp Hq. unfold portKey. now rewrite Hp, Hq.
Qed.

(** X2.  No two records returned by [parsePortOutput] share both port and
    protocol: a later line for a pair already seen is skipped. *)
Theorem parsePortOutput_unique_keys (clock : Clock) (text : string) :
  NoDup (map (fun r => (port r, protocol r)) (parsePortOutput clock text)).
Proof.
  apply distinct_keys_distinct_pairs.
  apply parsePortOutput_portKeys.
Qed.

(** X3.  Every record returned by [parsePortOutput] has a non-empty process
    name and a non-empty address (the fallbacks fill them), and its pid is
    either [null] or a number of at least 1. *)
Theorem parsePortOutput_fields (clock : Clock) (text : string) (r : PortRecord) :
  In r (parsePortOutput clock text) ->
  process r <> "" /\ address r <> "" /\ (forall v, pid r = Some v -> 1 <= v).
Proof.
  unfold parsePortOutput. rewrite sort_by_In. intros Hin.
  destruct (parseLoop_invariants clock text) as [_ Hf].
  rewrite Forall_forall in Hf. apply Hf. now apply list_elem_of_In.
Qed.

Definition sshd_record : PortRecord := mkPort 22 "tcp" "sshd" (Some 1234) "0.0.0.0" 5.

Lemma parsePortOutput_fields_witness :
  In sshd_record (parsePortOutput (fun _ => 5) ss_sshd) /\
  (process sshd_record <> "" /\ address sshd_record <> "" /\
   (forall v, pid sshd_record = Some v -> 1 <= v)).
Proof.
  assert (H : In sshd_record (parsePortOutput (fun _ => 5) ss_sshd)).
  { vm_compute. left. reflexivity. }
  split; [exact H|].
  exact (parsePortOutput_fields (fun _ => 5) ss_sshd sshd_record H).
Defined.

End ParserInvariants.

(** ** The history map of the detector *)

Module HistoryFacts.
Import SecurityAnalyzer DetectorFacts.
Local Open Scope Z_scope.

Lemma refreshed_lookup now history records k :
  refreshed now history records !! k
  = if decide (k ∈ map key records) then Some now else history !! k.
Proof.
  revert history. induction records as [|r rest IH]; intros history.
  - cbn [refreshed map]. case_decide as Hin; [|reflexivity].
    now apply elem_of_nil in Hin.
  - cbn [refreshed map]. rewrite IH.
    destruct (decide (k = key r)) as [->|Hne].
    + rewrite lookup_insert_eq.
      rewrite (decide_True (P := key r ∈ key r :: map key rest)) by apply list_elem_of_here.
      now case_decide.
    + rewrite lookup_insert_ne by congruence.
      case_decide as Hin.
      * rewrite decide_True; [reflexivity|]. now apply list_elem_of_further.
      * rewrite decide_False; [reflexivity|].
        intros Hin'. apply elem_of_cons in Hin'. tauto.
Qed.

Lemma detect_history now records history :
  snd (detectPortScanning now records history)
  = sweep now (refreshed now history records).
Proof.
  unfold detectPortScanning. rewrite fold_scanStep.
  now destruct (_ <=? _)%nat.
Qed.

Lemma detect_alert now records history :
  fst (detectPortScanning now records history)
  = let recent := map fst (candidates now history records) in
    if (portScanThreshold <=? length recent)%nat
    then Some (ScanAlert port_scan critical
                 ("Possible port scanning detected: " +:+ pretty (length recent) +:+
                  " new ports opened") recent)
    else None.
Proof.
  unfold detectPortScanning. rewrite fold_scanStep. cbn [app].
  now destruct (_ <=? _)%nat.
Qed.

(** X5.  The history map after a call of the detector at time [now]: every
    key observed in the call is recorded with [now]; any other key keeps
    the timestamp it had unless that is more than 300 seconds old, in
    which case the key is gone. *)
Theorem history_after_call
    (now : Z) (records : list PortRecord) (history : gmap string Z) (k : string) :
  snd (detectPortScanning now records history) !! k
  = if decide (k ∈ map key records) then Some now
    else match history !! k with
         | Some t => if decide (now - t > 300000) then None else Some t
         | None => None
         end.
Proof.
  rewrite detect_history, sweep_lookup, refreshed_lookup.
  case_decide as Hin; [|reflexivity].
  rewrite decide_False by lia. reflexivity.
Qed.

(** When every record's key is in the map with a recent, non-zero
    timestamp, nothing is pushed to [recentPorts]. *)
Lemma candidates_nil now history records :
  now <> 0 ->
  (forall r, In r records ->
     exists t, history !! key r = Some t /\ t <> 0 /\ now - t <= 60000) ->
  candidates now history records = [].
Proof.
  intros Hnow. revert history.
  induction records as [|r rest IH]; intros history Hall; [reflexivity|].
  cbn [candidates].
  destruct (Hall r (or_introl eq_refl)) as (t & Ht & Ht0 & Hage).
  unfold unseen at 1. rewrite Ht.
  destruct (Z.eqb_spec t 0) as [|_]; [contradiction|]. cbn [orb].
  rewrite Z.gtb_ltb. destruct (Z.ltb_spec 60000 (now - t)) as [|_]; [lia|].
  cbn [app]. apply IH. intros r' Hin.
  destruct (decide (key r' = key r)) as [->|Hne].
  - exists now. rewrite lookup_insert_eq. repeat split; [assumption|lia].
  - rewrite lookup_insert_ne by congruence. apply Hall. now right.
Qed.

(** X6.  A call that observes only keys seen by the previous call, made no
    more than 60 seconds after it, raises no port-scan alert, however many
    records it is given. *)
Theorem no_repeated_scan_alert
    (now1 now2 : Z) (records1 records2 : list PortRecord) (history : gmap string Z) :
  now1 <> 0 -> now2 <> 0 -> now2 - now1 <= 60000 ->
  (forall r, In r records2 -> In (pair_of r) (map pair_of records1)) ->
  fst (detectPortScanning now2 records2
         (snd (detectPortScanning now1 records1 history))) = None.
Proof.
  intros H1 H2 Hage Hsub. rewrite detect_alert.
  rewrite candidates_nil; [reflexivity|assumption|].
  intros r Hin. exists now1. split; [|split; assumption].
  rewrite detect_history, sweep_lookup, refreshed_lookup, decide_True.
  { rewrite decide_False by lia. reflexivity. }
  apply Hsub, in_map_iff in Hin. destruct Hin as (r1 & Heq & Hin).
  apply list_elem_of_In, in_map_iff. exists r1. split; [|assumption].
  unfold pair_of in Heq. injection Heq as Hp Hq. unfold key. now rewrite Hp, Hq.
Qed.

Lemma no_repeated_scan_alert_witness :
  fst (detectPortScanning 1030000
         (observed [1; 2; 3; 4; 5; 6; 7; 8; 9; 10])
         (snd (detectPortScanning 1000000
                 (observed [1; 2; 3; 4; 5; 6; 7; 8; 9; 10; 11]) ∅))) = None.
Proof.
  apply no_repeated_scan_alert; [lia|lia|lia|].
  intros r Hin. apply in_map_iff in Hin. destruct Hin as (p & <- & Hp).
  cbn in Hp |- *. intuition (subst; auto 12).
Defined.

(** When the keys of the records are pairwise distinct and none is in the
    map, every record is pushed to [recentPorts]. *)
Lemma candidates_all now history records :
  NoDup (map pair_of records) ->
  (forall r, In r records -> history !! key r = None) ->
  candidates now history records = map pair_of records.
Proof.
  revert history. induction records as [|r rest IH]; intros history Hnd Hnone;
    [reflexivity|].
  cbn [candidates map] in *. apply NoDup_cons in Hnd. destruct Hnd as [Hr Hnd].
  unfold unseen at 1. rewrite (Hnone r (or_introl eq_refl)). cbn [app]. f_equal.
  apply IH; [assumption|]. intros r' Hin.
  rewrite lookup_insert_ne; [apply Hnone; now right|].
  intros Heq. apply Hr. apply list_elem_of_In, in_map_iff. exists r'.
  split; [|assumption]. unfold key in Heq. apply key_of_inj in Heq.
  unfold pair_of. destruct Heq as [-> ->]. reflexivity.
Qed.

Lemma first_scan (now : Z) (clock : Clock) (text : string) :
  let records := PortMonitor.parsePortOutput clock text in
  fst (detectPortScanning now records ∅)
  = if (10 <=? length records)%nat
    then Some (ScanAlert port_scan critical
                 ("Possible port scanning detected: " +:+ pretty (length records) +:+
                  " new ports opened") (map port records))
    else None.
Proof.
  intros records. rewrite detect_alert.
  rewrite candidates_all.
  - cbn zeta. rewrite map_map. cbn [pair_of fst]. rewrite !length_map. reflexivity.
  - apply ParserInvariants.distinct_keys_distinct_pairs.
    apply ParserInvariants.parsePortOutput_portKeys.
  - intros r _. apply lookup_empty.
Qed.

Lemma filter_scan_none (l : list Alert) :
  forallb (fun a => negb (ClassifierFacts.is_scan a)) l = true ->
  List.filter ClassifierFacts.is_scan l = [].
Proof.
  induction l as [|a l IH]; cbn [forallb List.filter]; [reflexivity|].
  intros H. apply andb_true_iff in H. destruct H as [Ha Hl].
  apply negb_true_iff in Ha. rewrite Ha. now apply IH.
Qed.

(** X4.  The first analysis after start counts every listening socket as
    newly opened: on an analyzer whose history map is empty, [analyzePorts]
    given the parser's output reports a port scan exactly when the parser
    returned ten or more records, whitelisted or not, and the alert lists
    the port of every record. *)
Theorem first_analysis_counts_every_port
    (clock pclock : Clock) (text : string) (st : State) :
  connectionHistory st = ∅ ->
  let records := PortMonitor.parsePortOutput pclock text in
  List.filter ClassifierFacts.is_scan (fst (analyzePorts clock records st))
  = if (10 <=? length records)%nat
    then [ScanAlert port_scan critical
            ("Possible port scanning detected: " +:+ pretty (length records) +:+
             " new ports opened") (map port records)]
    else [].
Proof.
  intros Hempty records. unfold analyzePorts. rewrite Hempty.
  pose proof (ClassifierFacts.analyzeLoop_not_scan (loadWhitelist st) clock 1 records []
                eq_refl) as Hns.
  destruct (analyzeLoop (loadWhitelist st) clock 1 records []) as [alerts n].
  cbn [fst] in Hns. apply filter_scan_none in Hns.
  pose proof (first_scan (clock n) pclock text) as Hd. cbn zeta in Hd.
  fold records in Hd.
  destruct (detectPortScanning (clock n) records ∅) as [alert history].
  cbn [fst] in Hd |- *. subst alert.
  destruct (10 <=? length records)%nat.
  - rewrite List.filter_app, Hns. reflexivity.
  - exact Hns.
Qed.

Definition steady : Clock := fun _ => 1000000.

(** Ten listeners as ss prints them, one per line. *)
Definition ten_listeners : string :=
  fold_right
    (fun p acc =>
       "tcp   LISTEN 0      128          0.0.0.0:" +:+ pretty p +:+
       "           0.0.0.0:*    " +:+ ParserFacts.newline +:+ acc)
    "" [8001; 8002; 8003; 8004; 8005; 8006; 8007; 8008; 8009; 8010].

Lemma first_analysis_counts_every_port_witness :
  List.filter ClassifierFacts.is_scan
    (fst (analyzePorts steady
            (PortMonitor.parsePortOutput steady ten_listeners) initial))
  = if (10 <=? length (PortMonitor.parsePortOutput steady ten_listeners))%nat
    then [ScanAlert port_scan critical
            ("Possible port scanning detected: " +:+
             pretty (length (PortMonitor.parsePortOutput steady ten_listeners))
             +:+ " new ports opened")
            (map port (PortMonitor.parsePortOutput steady ten_listeners))]
    else [].
Proof.
  apply (first_analysis_counts_every_port steady steady
           ten_listeners initial).
  reflexivity.
Defined.

Example first_analysis_of_ten_listeners :
  List.filter ClassifierFacts.is_scan
    (fst (analyzePorts steady
            (PortMonitor.parsePortOutput steady ten_listeners) initial))
  = [ScanAlert port_scan critical
       "Possible port scanning detected: 10 new ports opened"
       [8001; 8002; 8003; 8004; 8005; 8006; 8007; 8008; 8009; 8010]].
Proof. vm_compute. reflexivity. Qed.

End HistoryFacts.

(** ** The verdict of the knowledge table *)

Module VerdictFacts.
Import PortDatabase ClassifierFacts.
Local Open Scope Z_scope.

(** The type and severity chosen by [generateSecurityAlert], branch by
    branch, in terms of the tables. *)
Definition verdict (p : Z) (proc addr : string) : AlertType * Severity :=
  if includes dangerousPorts p then (dangerous_port, critical)
  else match commonPorts p with
       | None => (unknown_port, medium)
       | Some e =>
           if bool_decide (e_risk e = high) then (high_risk_service, high)
           else if includes developmentPorts p
                   && negb (String.eqb addr "127.0.0.1")
                   && negb (String.eqb addr "localhost")
           then (dev_service_exposed, high)
           else if negb (existsb (fun c => Js.truthy proc &&
                                    Js.includes (Js.toLowerCase proc) (Js.toLowerCase c))
                                 (e_commonProcesses e))
                   && Js.truthy proc
           then (process_mismatch, medium)
           else (info, low)
       end.

Lemma risk_unknown_not_high (p : Z) (proto proc : string) :
  commonPorts p = None -> includes dangerousPorts p = false ->
  risk (getPortInfo p proto proc) <> high.
Proof.
  intros Hc Hd. unfold getPortInfo. rewrite Hc, Hd.
  destruct (p <? 1024), (p >=? 49152); cbn; discriminate.
Qed.

Lemma generateSecurityAlert_verdict (p : Z) (proto proc addr : string) (now : Z) :
  (type (generateSecurityAlert p proto proc addr now),
   severity (generateSecurityAlert p proto proc addr now))
  = verdict p proc addr.
Proof.
  unfold generateSecurityAlert, verdict.
  rewrite isDangerous_getPortInfo.
  destruct (includes dangerousPorts p) eqn:Hd; [reflexivity|].
  unfold getPortInfo. destruct (commonPorts p) as [e|] eqn:Hc.
  - cbn [isKnown negb risk isDevelopment processMatch].
    destruct (bool_decide (e_risk e = high)); [reflexivity|].
    destruct (includes developmentPorts p && _ && _); [reflexivity|].
    destruct (negb _ && _); reflexivity.
  - rewrite Hd. destruct (p <? 1024), (p >=? 49152); reflexivity.
Qed.

(** X7.  The classifier reports severity [critical] exactly for the ports
    of [dangerousPorts], and type [dangerous_port] exactly for them,
    whatever the protocol, process and address. *)
Theorem critical_iff_dangerous_port (p : Z) (proto proc addr : string) (now : Z) :
  (severity (generateSecurityAlert p proto proc addr now) = critical
   <-> In p dangerousPorts) /\
  (type (generateSecurityAlert p proto proc addr now) = dangerous_port
   <-> In p dangerousPorts).
Proof.
  pose proof (generateSecurityAlert_verdict p proto proc addr now) as Hv.
  rewrite <- includes_In.
  unfold verdict in Hv.
  destruct (includes dangerousPorts p).
  - injection Hv as -> ->. split; split; reflexivity.
  - assert (Hne : type (generateSecurityAlert p proto proc addr now) <> dangerous_port /\
                  severity (generateSecurityAlert p proto proc addr now) <> critical).
    { destruct (commonPorts p) as [e|].
      - destruct (bool_decide _); [injection Hv as -> ->; split; discriminate|].
        destruct (_ && _ && _); [injection Hv as -> ->; split; discriminate|].
        destruct (negb _ && _); injection Hv as -> ->; split; discriminate.
      - injection Hv as -> ->; split; discriminate. }
    destruct Hne as [Ht Hs]. split; split; intros H; try discriminate; contradiction.
Qed.

(** X8.  The type [dev_service_exposed] is reported exactly for ports 3000
    and 3001 bound to an address other than 127.0.0.1 and localhost: the
    other six development ports are dangerous, unknown or of high risk,
    and an earlier branch takes them. *)
Theorem dev_service_exposed_ports (p : Z) (proto proc addr : string) (now : Z) :
  type (generateSecurityAlert p proto proc addr now) = dev_service_exposed
  <-> (p = 3000 \/ p = 3001) /\ addr <> "127.0.0.1" /\ addr <> "localhost".
Proof.
  pose proof (generateSecurityAlert_verdict p proto proc addr now) as Hv.
  assert (Haddr : forall a : string,
             negb (String.eqb addr a) = true <-> addr <> a).
  { intros a. rewrite negb_true_iff. destruct (String.eqb_spec addr a); split;
      intros; congruence. }
  split.
  - intros Ht. rewrite Ht in Hv. unfold verdict in Hv.
    destruct (includes dangerousPorts p) eqn:Hd; [discriminate|].
    destruct (commonPorts p) as [e|] eqn:Hc; [|discriminate].
    destruct (bool_decide (e_risk e = high)) eqn:Hr; [discriminate|].
    destruct (includes developmentPorts p && _ && _) eqn:Hdev.
    + apply andb_true_iff in Hdev. destruct Hdev as [Hdev Hl].
      apply andb_true_iff in Hdev. destruct Hdev as [Hdev Hi].
      apply Haddr in Hl, Hi. split; [|now split].
      apply includes_In in Hdev.
      cbn in Hdev.
      repeat (destruct Hdev as [<-|Hdev]; [first [now left|now right| exfalso]|]);
        try contradiction;
        vm_compute in Hc; try discriminate; injection Hc as <-;
        vm_compute in Hr; discriminate.
    + destruct (negb _ && _); discriminate.
  - intros (Hp & Hi & Hl). apply Haddr in Hi, Hl.
    assert (Ht : fst (verdict p proc addr) = dev_service_exposed).
    { unfold verdict. rewrite Hi, Hl.
      destruct Hp as [-> | ->]; reflexivity. }
    rewrite <- Hv in Ht. exact Ht.
Qed.

Lemma dev_service_exposed_ports_example :
  type (generateSecurityAlert 3001 "tcp" "node" "192.168.1.5" 0) = dev_service_exposed /\
  type (generateSecurityAlert 9000 "tcp" "node" "192.168.1.5" 0) = unknown_port /\
  type (generateSecurityAlert 8000 "tcp" "node" "192.168.1.5" 0) = high_risk_service.
Proof. vm_compute. auto. Qed.

(** *** Letter case of the process name *)

Lemma lower_upper_char (c : ascii) : Js.lower_char (Js.upper_char c) = Js.lower_char c.
Proof.
  destruct c as [[] [] [] [] [] [] [] []]; vm_compute; reflexivity.
Qed.

Lemma chars_str (l : list ascii) : Js.chars (Js.str l) = l.
Proof. apply String.list_ascii_of_string_of_list_ascii. Qed.

Lemma toLowerCase_toUpperCase (s : string) :
  Js.toLowerCase (Js.toUpperCase s) = Js.toLowerCase s.
Proof.
  unfold Js.toLowerCase, Js.toUpperCase. rewrite chars_str, map_map.
  f_equal. apply map_ext. intros c. apply lower_upper_char.
Qed.

Lemma toLowerCase_truthy (s t : string) :
  Js.toLowerCase s = Js.toLowerCase t -> Js.truthy s = Js.truthy t.
Proof.
  unfold Js.toLowerCase. intros H.
  apply (f_equal Js.chars) in H. rewrite !chars_str in H.
  apply (f_equal (@length ascii)) in H. rewrite !length_map in H.
  destruct s, t; cbn in H; try discriminate; reflexivity.
Qed.

(** X9.  The type and severity reported for a record do not depend on the
    letter case of its process name: two names with the same lower-case
    form are classified alike. *)
Theorem classification_ignores_case
    (p : Z) (proto proc1 proc2 addr : string) (now1 now2 : Z) :
  Js.toLowerCase proc1 = Js.toLowerCase proc2 ->
  type (generateSecurityAlert p proto proc1 addr now1)
  = type (generateSecurityAlert p proto proc2 addr now2) /\
  severity (generateSecurityAlert p proto proc1 addr now1)
  = severity (generateSecurityAlert p proto proc2 addr now2).
Proof.
  intros Hlow.
  pose proof (generateSecurityAlert_verdict p proto proc1 addr now1) as H1.
  pose proof (generateSecurityAlert_verdict p proto proc2 addr now2) as H2.
  assert (Hv : verdict p proc1 addr = verdict p proc2 addr).
  { unfold verdict. now rewrite Hlow, (toLowerCase_truthy _ _ Hlow). }
  rewrite Hv, <- H2 in H1. injection H1 as Ht Hs. now split.
Qed.

Lemma classification_ignores_case_witness :
  type (generateSecurityAlert 80 "tcp" "NGINX" "0.0.0.0" 1)
  = type (generateSecurityAlert 80 "tcp" "nginx" "0.0.0.0" 2) /\
  severity (generateSecurityAlert 80 "tcp" "NGINX" "0.0.0.0" 1)
  = severity (generateSecurityAlert 80 "tcp" "nginx" "0.0.0.0" 2).
Proof.
  apply (classification_ignores_case 80 "tcp" "NGINX" "nginx" "0.0.0.0" 1 2).
  reflexivity.
Defined.

End VerdictFacts.

(** ** One detailed alert per analysed record *)

Module ReportFacts.
Import SecurityAnalyzer ClassifierFacts.
Local Open Scope Z_scope.

(** The ports of the detailed alerts of a list of alerts, in order. *)
Definition detailedPorts (alerts : list Alert) : list Z :=
  flat_map (fun a => match a with
                     | DetailedAlert _ _ _ p _ _ _ _ _ _ _ _ => [p]
                     | _ => []
                     end) alerts.

Lemma detailedPorts_app l1 l2 :
  detailedPorts (l1 ++ l2) = detailedPorts l1 ++ detailedPorts l2.
Proof. apply flat_map_app. Qed.

Lemma detailedPorts_portAlerts r now : detailedPorts (portAlerts r now) = [port r].
Proof.
  unfold portAlerts, detailedPorts. cbn [flat_map app]. f_equal.
  rewrite flat_map_app. unfold suspiciousPatterns. cbn [flat_map].
  repeat match goal with
         | |- context [if ?b then _ else _] => destruct b
         end; reflexivity.
Qed.

Lemma analyzeLoop_detailedPorts wl clock n records acc :
  detailedPorts (fst (analyzeLoop wl clock n records acc))
  = detailedPorts acc
    ++ map port (List.filter (fun r => negb (whitelisted wl r)) records).
Proof.
  revert n acc. induction records as [|r rest IH]; intros n acc.
  - cbn. now rewrite app_nil_r.
  - cbn [analyzeLoop List.filter]. destruct (whitelisted wl r); cbn [negb].
    + apply IH.
    + rewrite IH, detailedPorts_app, detailedPorts_portAlerts.
      cbn [map]. now rewrite <- app_assoc.
Qed.

(** X10.  [analyzePorts] returns exactly one detailed alert for each record
    that is not whitelisted, in the order of the records, and none for a
    whitelisted one. *)
Theorem one_detailed_alert_per_record
    (clock : Clock) (records : list PortRecord) (st : State) :
  detailedPorts (fst (analyzePorts clock records st))
  = map port (List.filter (fun r => negb (whitelisted (loadWhitelist st) r)) records).
Proof.
  unfold analyzePorts.
  pose proof (analyzeLoop_detailedPorts (loadWhitelist st) clock 1 records []) as Hl.
  destruct (analyzeLoop (loadWhitelist st) clock 1 records []) as [alerts n].
  cbn [fst] in Hl. cbn [detailedPorts flat_map app] in Hl.
  unfold detectPortScanning.
  destruct (fold_left _ records _) as [recent hist1].
  destruct (_ <=? _)%nat; cbn [fst]; [|exact Hl].
  rewrite detailedPorts_app. cbn [detailedPorts flat_map app].
  now rewrite app_nil_r.
Qed.

(** *** Privilege violations *)

(** The alert pushed by the check on privileged ports. *)
Definition privilegeAlert (r : PortRecord) : Alert :=
  ProcessAlert privilege_violation high
    ("Non-root process " +:+ process r +:+ " using privileged port " +:+ pretty (port r))
    (port r) (process r)
    ["Check process permissions"; "Check for privilege escalation";
     "Analyze system security"].

Definition privileged (r : PortRecord) : Prop :=
  port r < 1024 /\ process r <> "root" /\ exists v, pid r = Some v /\ v <> 0.

Lemma privileged_guard r :
  (port r <? 1024) && negb (String.eqb (process r) "root") && Js.truthy_num (pid r) = true
  <-> privileged r.
Proof.
  unfold privileged, Js.truthy_num.
  rewrite !andb_true_iff, Z.ltb_lt, negb_true_iff.
  destruct (String.eqb_spec (process r) "root") as [Hp|Hp];
    destruct (pid r) as [v|]; [| | |].
  - split; [intros [[_ [=]] _]|intros (_ & H & _); contradiction].
  - split; [intros [[_ [=]] _]|intros (_ & H & _); contradiction].
  - rewrite negb_true_iff, Z.eqb_neq. split.
    + intros [[Hlt _] Hv]. repeat split; [assumption|assumption|]. now exists v.
    + intros (Hlt & _ & v' & [= <-] & Hv). auto.
  - split; [intros [_ [=]]|intros (_ & _ & v' & [=] & _)].
Qed.

Lemma In_portAlerts_privilege r now a :
  alert_type a = privilege_violation ->
  (In a (portAlerts r now) <-> privileged r /\ a = privilegeAlert r).
Proof.
  intros Ha. rewrite <- privileged_guard. unfold portAlerts.
  cbn [In]. rewrite in_app_iff. split.
  - intros [Hd|[Hs|Hp]].
    + exfalso. rewrite <- Hd in Ha. cbn [alert_type] in Ha. revert Ha.
      unfold PortDatabase.generateSecurityAlert.
      repeat match goal with
             | |- context [if ?b then _ else _] => destruct b
             end; simpl; discriminate.
    + exfalso. apply in_flat_map in Hs. destruct Hs as (sp & _ & Hs).
      destruct (_ && _) in Hs; [|contradiction].
      destruct Hs as [<-|[]]. discriminate.
    + destruct (_ && _ && _); [|contradiction].
      destruct Hp as [<-|[]]. split; reflexivity.
  - intros [Hg ->]. right. right. rewrite Hg. now left.
Qed.

Lemma In_analyzeLoop_privilege wl clock n records acc a :
  alert_type a = privilege_violation ->
  (In a (fst (analyzeLoop wl clock n records acc)) <->
   In a acc \/
   exists r, In r records /\ whitelisted wl r = false /\ privileged r /\
             a = privilegeAlert r).
Proof.
  intros Ha. revert n acc. induction records as [|r rest IH]; intros n acc.
  - cbn. split; [auto|]. intros [H|(r & [] & _)]. assumption.
  - cbn [analyzeLoop]. destruct (whitelisted wl r) eqn:Hw; rewrite IH.
    + split.
      * intros [H|(r' & Hin & H)]; [now left|]. right. exists r'. split; [now right|exact H].
      * intros [H|(r' & [<-|Hin] & Hw' & H)]; [now left|congruence|].
        right. exists r'. auto.
    + rewrite in_app_iff, (In_portAlerts_privilege r (clock n) a Ha). split.
      * intros [[H|[Hp ->]]|(r' & Hin & H)].
        -- now left.
        -- right. exists r. split; [now left|auto].
        -- right. exists r'. split; [now right|exact H].
      * intros [H|(r' & [<-|Hin] & Hw' & Hp & ->)].
        -- left. now left.
        -- left. right. auto.
        -- right. exists r'. auto.
Qed.

(** X11.  [analyzePorts] reports a [privilege_violation] exactly for the
    records that are not whitelisted, listen on a port below 1024, have
    a pid, and whose process name is not the string root; the alert is
    of severity [high] and names the port and the process.  The test is on
    the name of the process, not on its owner. *)
Theorem privilege_violation_iff
    (clock : Clock) (records : list PortRecord) (st : State) (a : Alert) :
  alert_type a = privilege_violation ->
  (In a (fst (analyzePorts clock records st)) <->
   exists r, In r records /\ whitelisted (loadWhitelist st) r = false /\
             port r < 1024 /\ process r <> "root" /\
             (exists v, pid r = Some v /\ v <> 0) /\
             a = privilegeAlert r).
Proof.
  intros Ha. unfold analyzePorts.
  pose proof (In_analyzeLoop_privilege (loadWhitelist st) clock 1 records [] a Ha) as Hl.
  destruct (analyzeLoop (loadWhitelist st) clock 1 records []) as [alerts n].
  cbn [fst] in Hl. unfold detectPortScanning.
  destruct (fold_left _ records _) as [recent hist1].
  assert (Hgoal : In a alerts <->
                  exists r, In r records /\ whitelisted (loadWhitelist st) r = false /\
                            port r < 1024 /\ process r <> "root" /\
                            (exists v, pid r = Some v /\ v <> 0) /\
                            a = privilegeAlert r).
  { rewrite Hl. unfold privileged. split.
    - intros [[]|(r & Hin & Hw & (H1 & H2 & H3) & Heq)]. exists r. auto 10.
    - intros (r & Hin & Hw & H1 & H2 & H3 & Heq). right. exists r. auto 10. }
  destruct (_ <=? _)%nat; cbn [fst]; [|exact Hgoal].
  rewrite in_app_iff, Hgoal. split; [|auto].
  intros [H|[<-|[]]]; [exact H|discriminate].
Qed.

Lemma privilege_violation_iff_witness :
  In (privilegeAlert sshd22)
     (fst (analyzePorts (fun _ => 0) [sshd22] initial)) <->
  exists r, In r [sshd22] /\ whitelisted (loadWhitelist initial) r = false /\
            port r < 1024 /\ process r <> "root" /\
            (exists v, pid r = Some v /\ v <> 0) /\
            privilegeAlert sshd22 = privilegeAlert r.
Proof.
  apply (privilege_violation_iff (fun _ => 0) [sshd22] initial (privilegeAlert sshd22)).
  reflexivity.
Defined.

Example sshd_is_a_privilege_violation :
  In (privilegeAlert sshd22) (fst (analyzePorts (fun _ => 0) [sshd22] initial)).
Proof. vm_compute. auto. Qed.

End ReportFacts.

(** ** The whitelist store *)

Module WhitelistFacts.
Import SecurityAnalyzer ClassifierFacts.
Local Open Scope Z_scope.

Lemma includes_In_false (l : list Z) (x : Z) :
  PortDatabase.includes l x = false <-> ~ In x l.
Proof. rewrite <- includes_In. now destruct (PortDatabase.includes l x). Qed.

Lemma ports_addToWhitelist p proc st :
  ports (loadWhitelist (addToWhitelist p proc st))
  = if PortDatabase.includes (ports (loadWhitelist st)) p
    then ports (loadWhitelist st) else ports (loadWhitelist st) ++ [p].
Proof.
  unfold addToWhitelist, saveWhitelist, loadWhitelist at 1. cbn [whitelistFile ports].
  now destruct (PortDatabase.includes _ p).
Qed.

Lemma processes_addToWhitelist p proc st :
  processes (loadWhitelist (addToWhitelist p proc st))
  = match proc with
    | Some name =>
        if Js.truthy name && negb (includes_str (processes (loadWhitelist st)) name)
        then processes (loadWhitelist st) ++ [name] else processes (loadWhitelist st)
    | None => processes (loadWhitelist st)
    end.
Proof. reflexivity. Qed.

Lemma In_ports_addToWhitelist p proc st q :
  In q (ports (loadWhitelist (addToWhitelist p proc st)))
  <-> q = p \/ In q (ports (loadWhitelist st)).
Proof.
  rewrite ports_addToWhitelist.
  destruct (PortDatabase.includes _ p) eqn:Hin.
  - apply includes_In in Hin. split; [auto|]. intros [->|H]; assumption.
  - rewrite in_app_iff. cbn. intuition.
Qed.

Lemma In_processes_addToWhitelist p proc st name :
  In name (processes (loadWhitelist (addToWhitelist p proc st)))
  <-> (proc = Some name /\ name <> "") \/ In name (processes (loadWhitelist st)).
Proof.
  rewrite processes_addToWhitelist. destruct proc as [n|].
  - destruct (Js.truthy n) eqn:Ht; cbn [andb].
    + assert (Hn : n <> "") by (destruct n; [discriminate|discriminate]).
      destruct (includes_str _ n) eqn:Hin; cbn [negb].
      * apply includes_str_In in Hin. split; [auto|].
        intros [[[= ->] _]|H]; assumption.
      * rewrite in_app_iff. cbn. split.
        -- intros [H|[->|[]]]; auto.
        -- intros [[[= ->] _]|H]; auto.
    + assert (Hn : n = "") by (destruct n; [reflexivity|discriminate]).
      split; [auto|]. intros [[[= ->] Hne]|H]; [congruence|assumption].
  - split; [auto|]. intros [[[=] _]|H]. assumption.
Qed.

(** X12.  After [addToWhitelist port process], every record
    on that port is skipped by the classifier, and so is every record of
    that process when a non-empty process name was given. *)
Theorem addToWhitelist_suppresses
    (p : Z) (proc : option string) (st : State) (r : PortRecord) :
  port r = p \/ (proc = Some (process r) /\ process r <> "") ->
  whitelisted (loadWhitelist (addToWhitelist p proc st)) r = true /\
  (forall clock n rest acc,
      analyzeLoop (loadWhitelist (addToWhitelist p proc st)) clock n (r :: rest) acc
      = analyzeLoop (loadWhitelist (addToWhitelist p proc st)) clock n rest acc).
Proof.
  intros H.
  assert (Hw : whitelisted (loadWhitelist (addToWhitelist p proc st)) r = true).
  { apply whitelisted_iff. destruct H as [H|H].
    - left. apply In_ports_addToWhitelist. now left.
    - right. apply In_processes_addToWhitelist. now left. }
  split; [exact Hw|]. intros. now apply analyzeLoop_skip.
Qed.

Lemma addToWhitelist_suppresses_witness :
  whitelisted (loadWhitelist (addToWhitelist 80 (Some "nginx") initial)) nginx80 = true /\
  (forall clock n rest acc,
      analyzeLoop (loadWhitelist (addToWhitelist 80 (Some "nginx") initial)) clock n
        (nginx80 :: rest) acc
      = analyzeLoop (loadWhitelist (addToWhitelist 80 (Some "nginx") initial)) clock n
          rest acc).
Proof.
  apply (addToWhitelist_suppresses 80 (Some "nginx") initial nginx80).
  left. reflexivity.
Defined.

Lemma addToWhitelist_twice (p : Z) (proc : option string) (st : State) :
  addToWhitelist p proc (addToWhitelist p proc st) = addToWhitelist p proc st.
Proof.
  assert (Hp : In p (ports (loadWhitelist (addToWhitelist p proc st))))
    by (apply In_ports_addToWhitelist; now left).
  apply includes_In in Hp.
  unfold addToWhitelist at 1. rewrite Hp. cbn [negb].
  assert (Hq : match proc with
               | Some name =>
                   if Js.truthy name &&
                      negb (includes_str
                              (processes (loadWhitelist (addToWhitelist p proc st))) name)
                   then processes (loadWhitelist (addToWhitelist p proc st)) ++ [name]
                   else processes (loadWhitelist (addToWhitelist p proc st))
               | None => processes (loadWhitelist (addToWhitelist p proc st))
               end = processes (loadWhitelist (addToWhitelist p proc st))).
  { destruct proc as [name|]; [|reflexivity].
    destruct (Js.truthy name) eqn:Ht; [|reflexivity]. cbn [andb].
    assert (Hin : In name (processes (loadWhitelist (addToWhitelist p (Some name) st)))).
    { apply In_processes_addToWhitelist. left. split; [reflexivity|].
      destruct name; discriminate. }
    apply includes_str_In in Hin. now rewrite Hin. }
  rewrite Hq. reflexivity.
Qed.

Lemma addToWhitelist_NoDup_ports (p : Z) (proc : option string) (st : State) :
  NoDup (ports (loadWhitelist st)) ->
  NoDup (ports (loadWhitelist (addToWhitelist p proc st))).
Proof.
  intros Hnd. rewrite ports_addToWhitelist.
  destruct (PortDatabase.includes _ p) eqn:Hin; [assumption|].
  apply includes_In_false in Hin.
  apply NoDup_app. split; [assumption|]. split; [|apply NoDup_singleton].
  intros q Hq Hq'. apply list_elem_of_singleton in Hq'. subst q.
  apply Hin. now apply list_elem_of_In.
Qed.

Lemma addToWhitelist_NoDup_processes (p : Z) (proc : option string) (st : State) :
  NoDup (processes (loadWhitelist st)) ->
  NoDup (processes (loadWhitelist (addToWhitelist p proc st))).
Proof.
  intros Hnd. rewrite processes_addToWhitelist.
  destruct proc as [name|]; [|assumption].
  destruct (Js.truthy name); [|assumption]. cbn [andb].
  destruct (includes_str _ name) eqn:Hin; [assumption|]. cbn [negb].
  apply NoDup_app. split; [assumption|]. split; [|apply NoDup_singleton].
  intros q Hq Hq'. apply list_elem_of_singleton in Hq'. subst q.
  apply list_elem_of_In, includes_str_In in Hq. congruence.
Qed.

(** X13.  [addToWhitelist] never stores a port or a process name twice, and
    adding the same pair a second time changes nothing. *)
Theorem addToWhitelist_idempotent_nodup
    (p : Z) (proc : option string) (st : State) :
  addToWhitelist p proc (addToWhitelist p proc st) = addToWhitelist p proc st /\
  (NoDup (ports (loadWhitelist st)) ->
   NoDup (ports (loadWhitelist (addToWhitelist p proc st)))) /\
  (NoDup (processes (loadWhitelist st)) ->
   NoDup (processes (loadWhitelist (addToWhitelist p proc st)))).
Proof.
  split; [apply addToWhitelist_twice|].
  split; [apply addToWhitelist_NoDup_ports|apply addToWhitelist_NoDup_processes].
Qed.

(** X14.  Removing a port that is not listed leaves the whitelist
    as it is, and removing a port just added brings the port list back to
    what it was before the addition; the process list keeps the name that
    came with the port. *)
Theorem add_remove_round_trip (p : Z) (proc : option string) (st : State) :
  ~ In p (ports (loadWhitelist st)) ->
  loadWhitelist (removeFromWhitelist p st) = loadWhitelist st /\
  ports (loadWhitelist (removeFromWhitelist p (addToWhitelist p proc st)))
  = ports (loadWhitelist st) /\
  processes (loadWhitelist (removeFromWhitelist p (addToWhitelist p proc st)))
  = processes (loadWhitelist (addToWhitelist p proc st)).
Proof.
  intros Hnot.
  assert (Hfilter : forall l : list Z,
             ~ In p l -> List.filter (fun q => negb (q =? p)) l = l).
  { induction l as [|q l IH]; cbn; [reflexivity|]. intros Hl.
    destruct (Z.eqb_spec q p) as [->|_]; [exfalso; apply Hl; now left|].
    cbn. f_equal. apply IH. intros H. apply Hl. now right. }
  split; [|split].
  - unfold removeFromWhitelist, saveWhitelist, loadWhitelist at 1.
    cbn [whitelistFile]. rewrite Hfilter by assumption.
    now destruct (loadWhitelist st).
  - unfold removeFromWhitelist, saveWhitelist, loadWhitelist at 1.
    cbn [whitelistFile ports]. rewrite ports_addToWhitelist.
    destruct (PortDatabase.includes _ p) eqn:Hin.
    + apply includes_In in Hin. contradiction.
    + rewrite List.filter_app, Hfilter by assumption. cbn.
      rewrite Z.eqb_refl. cbn. apply app_nil_r.
  - reflexivity.
Qed.

Lemma add_remove_round_trip_witness :
  loadWhitelist (removeFromWhitelist 80 initial) = loadWhitelist initial /\
  ports (loadWhitelist (removeFromWhitelist 80 (addToWhitelist 80 (Some "nginx") initial)))
  = ports (loadWhitelist initial) /\
  processes (loadWhitelist (removeFromWhitelist 80 (addToWhitelist 80 (Some "nginx") initial)))
  = processes (loadWhitelist (addToWhitelist 80 (Some "nginx") initial)).
Proof.
  apply (add_remove_round_trip 80 (Some "nginx") initial). cbn. tauto.
Defined.

(** X15.  After [removeFromWhitelist p], a
    record is skipped exactly when its port is another listed port or its
    process is listed: a record on port [p] whose process is not listed is
    classified again. *)
Theorem removeFromWhitelist_restores (p : Z) (st : State) (r : PortRecord) :
  whitelisted (loadWhitelist (removeFromWhitelist p st)) r = true <->
  (port r <> p /\ In (port r) (ports (loadWhitelist st))) \/
  In (process r) (processes (loadWhitelist st)).
Proof.
  rewrite whitelisted_iff.
  unfold removeFromWhitelist, saveWhitelist, loadWhitelist at 1 2.
  cbn [whitelistFile ports processes].
  rewrite filter_In, negb_true_iff, Z.eqb_neq. tauto.
Qed.

End WhitelistFacts.

(** ** Input sanitization *)

Module MiddlewareFacts.
Import Middleware.

(** [occurs c s]: the character [c] occurs in [s]. *)
Fixpoint occurs (c : ascii) (s : string) : bool :=
  match s with
  | EmptyString => false
  | String x s' => Ascii.eqb x c || occurs c s'
  end.

(** The characters that [sanitizeInput] rewrites. *)
Definition specials : list ascii := ["<"; ">"; Js.dquote; "'"; "/"]%char.

Definition clean (s : string) : bool := forallb (fun c => negb (occurs c s)) specials.

Lemma occurs_app c a b : occurs c (a +:+ b) = occurs c a || occurs c b.
Proof. induction a as [|x a IH]; simpl; [reflexivity|]. now rewrite IH, orb_assoc. Qed.

Lemma replaceAll_removes c rep s :
  occurs c rep = false -> occurs c (replaceAll c rep s) = false.
Proof.
  intros Hrep. induction s as [|x s IH]; simpl; [reflexivity|].
  destruct (Ascii.eqb x c) eqn:Hx.
  - now rewrite occurs_app, Hrep, IH.
  - simpl. now rewrite Hx, IH.
Qed.

Lemma replaceAll_keeps d c rep s :
  occurs d s = false -> occurs d rep = false -> occurs d (replaceAll c rep s) = false.
Proof.
  intros Hs Hrep. induction s as [|x s IH]; simpl; [reflexivity|].
  simpl in Hs. apply orb_false_iff in Hs. destruct Hs as [Hx Hs].
  destruct (Ascii.eqb x c).
  - now rewrite occurs_app, Hrep, IH.
  - simpl. now rewrite Hx, IH.
Qed.

Lemma replaceAll_absent c rep s : occurs c s = false -> replaceAll c rep s = s.
Proof.
  induction s as [|x s IH]; simpl; [reflexivity|]. intros H.
  apply orb_false_iff in H. destruct H as [Hx Hs]. now rewrite Hx, IH.
Qed.

Lemma sanitizeInput_clean s : clean (sanitizeInput s) = true.
Proof.
  unfold clean, specials, sanitizeInput. cbn [forallb].
  repeat (apply andb_true_iff; split); try reflexivity; apply negb_true_iff.
  all: repeat first
         [ apply replaceAll_removes; reflexivity
         | apply replaceAll_keeps; [|reflexivity] ].
Qed.

Lemma clean_fixed s : clean s = true -> sanitizeInput s = s.
Proof.
  unfold clean, specials. cbn [forallb]. rewrite !andb_true_iff, !negb_true_iff.
  intros (H1 & H2 & H3 & H4 & H5 & _). unfold sanitizeInput.
  now rewrite (replaceAll_absent "<"), (replaceAll_absent ">"),
    (replaceAll_absent Js.dquote), (replaceAll_absent "'"), (replaceAll_absent "/").
Qed.

(** X16.  The result of [sanitizeInput] holds none of the characters
    [<], [>], the double quote, ['] and [/]; the strings it leaves unchanged
    are exactly those that hold none of them, so sanitizing twice is the
    same as sanitizing once. *)
Theorem sanitizeInput_idempotent (s : string) :
  clean (sanitizeInput s) = true /\
  (sanitizeInput s = s <-> clean s = true) /\
  sanitizeInput (sanitizeInput s) = sanitizeInput s.
Proof.
  split; [apply sanitizeInput_clean|]. split.
  - split; [|apply clean_fixed]. intros H. rewrite <- H. apply sanitizeInput_clean.
  - apply clean_fixed, sanitizeInput_clean.
Qed.

(** An induction principle that reaches the values nested in arrays and
    objects. *)
Section JsonInduction.
Variable P : Json -> Prop.
Hypothesis HNull : P JNull.
Hypothesis HBool : forall b, P (JBool b).
Hypothesis HNum : forall n, P (JNum n).
Hypothesis HStr : forall s, P (JStr s).
Hypothesis HArr : forall items, Forall P items -> P (JArr items).
Hypothesis HObj : forall fields, Forall (fun kv => P (snd kv)) fields -> P (JObj fields).

Fixpoint Json_nested_ind (v : Json) : P v :=
  match v with
  | JNull => HNull
  | JBool b => HBool b
  | JNum n => HNum n
  | JStr s => HStr s
  | JArr items =>
      HArr items
        ((fix go (l : list Json) : Forall P l :=
            match l with
            | [] => @List.Forall_nil Json P
            | x :: l' => @List.Forall_cons Json P x l' (Json_nested_ind x) (go l')
            end) items)
  | JObj fields =>
      HObj fields
        ((fix go (l : list (string * Json)) : Forall (fun kv => P (snd kv)) l :=
            match l with
            | [] => @List.Forall_nil (string * Json) (fun kv => P (snd kv))
            | kv :: l' => @List.Forall_cons (string * Json) (fun kv => P (snd kv)) kv l'
                          (Json_nested_ind (snd kv)) (go l')
            end) fields)
  end.
End JsonInduction.

(** Every string held in a value, at any depth, is clean. *)
Fixpoint strings_clean (v : Json) : bool :=
  match v with
  | JStr s => clean s
  | JArr items => forallb strings_clean items
  | JObj fields => forallb (fun kv => strings_clean (snd kv)) fields
  | _ => true
  end.

(** The value with every string emptied: its shape, keys, numbers and
    booleans. *)
Fixpoint skeleton (v : Json) : Json :=
  match v with
  | JStr _ => JStr ""
  | JArr items => JArr (map skeleton items)
  | JObj fields => JObj (map (fun kv => (fst kv, skeleton (snd kv))) fields)
  | _ => v
  end.

(** X17.  [sanitizeObj] walks the whole body: afterwards every string value,
    at any depth of nesting, is free of the five characters, while the
    shape of the body, its keys, numbers, booleans and nulls are untouched
    (keys are not sanitized). *)
Theorem sanitizeValue_deep (v : Json) :
  strings_clean (sanitizeValue v) = true /\
  skeleton (sanitizeValue v) = skeleton v.
Proof.
  induction v as [| b | n | s | items IH | fields IH] using Json_nested_ind;
    cbn [sanitizeValue strings_clean skeleton]; try (split; reflexivity).
  - split; [apply sanitizeInput_clean | reflexivity].
  - split.
    + rewrite forallb_forall. intros x Hx. apply in_map_iff in Hx.
      destruct Hx as (y & <- & Hy). rewrite Forall_forall in IH.
      apply IH. now apply list_elem_of_In.
    + f_equal. rewrite map_map. apply map_ext_in. intros y Hy.
      rewrite Forall_forall in IH. apply IH. now apply list_elem_of_In.
  - split.
    + rewrite forallb_forall. intros x Hx. apply in_map_iff in Hx.
      destruct Hx as (y & <- & Hy). rewrite Forall_forall in IH. cbn [snd].
      apply (IH y). now apply list_elem_of_In.
    + f_equal. rewrite map_map. apply map_ext_in. intros y Hy. cbn [fst snd].
      f_equal. rewrite Forall_forall in IH. apply (IH y). now apply list_elem_of_In.
Qed.

End MiddlewareFacts.

(** ** The whitelist routes *)

Module ApiFacts.
Import Middleware MiddlewareFacts Api SecurityAnalyzer ClassifierFacts WhitelistFacts.
Local Open Scope Z_scope.

Lemma get_fields_sanitize key fields acc :
  fold_left (fun found kv => if String.eqb (fst kv) key then Some (snd kv) else found)
    (map (fun kv => (fst kv, sanitizeValue (snd kv))) fields) (sanitizeValue <$> acc)
  = sanitizeValue <$>
      fold_left (fun found kv => if String.eqb (fst kv) key then Some (snd kv) else found)
        fields acc.
Proof.
  revert acc. induction fields as [|kv fields IH]; intros acc; [reflexivity|].
  cbn [map fold_left fst snd].
  destruct (String.eqb (fst kv) key); [apply (IH (Some (snd kv)))|apply IH].
Qed.

(** Reading a key of the sanitized body gives the sanitized value of that
    key. *)
Lemma get_sanitizeBody key body :
  get key (sanitizeBody body) = sanitizeValue <$> get key body.
Proof.
  destruct body as [| b | n | s | items | fields];
    unfold sanitizeBody; cbn [truthyJson]; try reflexivity.
  - now destruct b.
  - now destruct (negb (n =? 0)).
  - now destruct (Js.truthy s).
  - apply (get_fields_sanitize key fields None).
Qed.

(** What a well-kept whitelist looks like: ports in range, no duplicates,
    process names non-empty and free of the sanitized characters. *)
Definition well_kept (wl : Whitelist) : Prop :=
  Forall (fun p => 1 <= p <= 65535) (ports wl) /\
  NoDup (ports wl) /\
  NoDup (processes wl) /\
  Forall (fun s => s <> "" /\ clean s = true) (processes wl).

Lemma well_kept_add p proc st :
  1 <= p <= 65535 ->
  (forall name, proc = Some name -> clean name = true) ->
  well_kept (loadWhitelist st) ->
  well_kept (loadWhitelist (addToWhitelist p proc st)).
Proof.
  intros Hp Hproc (Hr & Hnp & Hnq & Hc).
  repeat split; [|now apply addToWhitelist_NoDup_ports
                 |now apply addToWhitelist_NoDup_processes|].
  - rewrite ports_addToWhitelist. destruct (PortDatabase.includes _ p); [assumption|].
    apply Forall_app. split; [assumption|]. now constructor.
  - rewrite processes_addToWhitelist. destruct proc as [name|]; [|assumption].
    destruct (Js.truthy name) eqn:Ht; [|assumption]. cbn [andb].
    destruct (negb _); [|assumption].
    apply Forall_app. split; [assumption|]. constructor; [|constructor].
    split; [destruct name; discriminate|]. now apply Hproc.
Qed.

Lemma well_kept_remove p st :
  well_kept (loadWhitelist st) -> well_kept (loadWhitelist (removeFromWhitelist p st)).
Proof.
  intros (Hr & Hnp & Hnq & Hc).
  unfold removeFromWhitelist, saveWhitelist, loadWhitelist at 1.
  cbn [whitelistFile]. repeat split; cbn [ports processes]; try assumption.
  - rewrite Forall_forall in Hr |- *. intros q Hq.
    apply list_elem_of_In, filter_In in Hq. apply Hr, list_elem_of_In, Hq.
  - induction Hnp as [|q l Hq Hl IH]; cbn; [constructor|].
    apply Forall_cons in Hr. destruct Hr as [_ Hr].
    destruct (negb (q =? p)); [|now apply IH].
    constructor; [|now apply IH].
    intros Hin. apply Hq. apply list_elem_of_In, filter_In in Hin.
    apply list_elem_of_In, Hin.
Qed.

Lemma serve_well_kept req st :
  well_kept (loadWhitelist st) -> well_kept (loadWhitelist (snd (serve req st))).
Proof.
  intros Hst. destruct req as [body|param]; cbn [serve].
  - unfold postWhitelist. rewrite !get_sanitizeBody.
    destruct (get "port" body) as [[| b | p | s | items | fields]|];
      cbn [fmap option_fmap option_map sanitizeValue snd]; try exact Hst.
    destruct (negb (truthyJson (JNum p)) || (p <? 1) || (p >? 65535)) eqn:Hv;
      [exact Hst|].
    apply orb_false_iff in Hv. destruct Hv as [Hv Hhi].
    apply orb_false_iff in Hv. destruct Hv as [_ Hlo].
    apply Z.ltb_ge in Hlo. rewrite Z.gtb_ltb in Hhi. apply Z.ltb_ge in Hhi.
    assert (Hnone : well_kept (loadWhitelist (addToWhitelist p None st))).
    { apply well_kept_add; [lia|discriminate|assumption]. }
    destruct (get "process" body) as [[| b | n | s | items | fields]|];
      cbn [fmap option_fmap option_map sanitizeValue truthyJson snd]; try exact Hnone;
      try exact Hst.
    + destruct b; [exact Hst|exact Hnone].
    + destruct (negb (n =? 0)); [exact Hst|exact Hnone].
    + apply well_kept_add; [lia| |assumption].
      intros name [= <-]. apply sanitizeInput_clean.
  - unfold deleteWhitelist. destruct (Js.parseInt param) as [p|]; [|exact Hst].
    destruct (_ || _); [exact Hst|]. now apply well_kept_remove.
Qed.

(** X18.  Whatever requests the two whitelist routes serve, in whatever
    order, a whitelist that starts well kept stays so: every listed port is
    within 1..65535, no port or process is listed twice, and every listed
    process name is non-empty and free of the sanitized characters. *)
Theorem whitelist_routes_keep_invariant (reqs : list Request) (st : State) :
  well_kept (loadWhitelist st) -> well_kept (loadWhitelist (serveAll reqs st)).
Proof.
  unfold serveAll. revert st.
  induction reqs as [|req reqs IH]; intros st Hst; [exact Hst|].
  cbn [fold_left]. apply IH. now apply serve_well_kept.
Qed.

Definition sample_requests : list Request := [
  PostWhitelist (JObj [("port", JNum 80); ("process", JStr "nginx")]);
  PostWhitelist (JObj [("port", JNum 70000)]);
  PostWhitelist (JObj [("port", JNum 22); ("process", JStr "kworker/0:1")]);
  DeleteWhitelist "80";
  PostWhitelist (JObj [("port", JNum 22); ("process", JStr "nginx")])
].

Lemma whitelist_routes_keep_invariant_witness :
  well_kept (loadWhitelist initial) /\
  well_kept (loadWhitelist (serveAll sample_requests initial)).
Proof.
  assert (H : well_kept (loadWhitelist initial)).
  { repeat split; constructor. }
  split; [exact H|].
  exact (whitelist_routes_keep_invariant sample_requests initial H).
Defined.

Example sample_requests_result :
  loadWhitelist (serveAll sample_requests initial)
  = mkWhitelist [22] ["nginx"; "kworker&#x2F;0:1"].
Proof. vm_compute. reflexivity. Qed.

(** X19.  Because the body is sanitized before the route sees it, a request
    that whitelists a process whose name holds one of the sanitized
    characters is answered with success but stores the rewritten name:
    records of that process on other ports are not suppressed by it. *)
Theorem post_whitelist_unclean_name
    (body : Json) (p : Z) (name : string) (st : State) (r : PortRecord) :
  get "port" body = Some (JNum p) -> 1 <= p <= 65535 ->
  get "process" body = Some (JStr name) -> clean name = false ->
  process r = name -> port r <> p ->
  whitelisted (loadWhitelist st) r = false ->
  fst (serve (PostWhitelist body) st) = ok /\
  whitelisted (loadWhitelist (snd (serve (PostWhitelist body) st))) r = false.
Proof.
  intros Hport Hp Hproc Hclean Hr Hne Hold.
  cbn [serve]. unfold postWhitelist. rewrite !get_sanitizeBody, Hport, Hproc.
  cbn [fmap option_fmap option_map sanitizeValue truthyJson].
  destruct (Z.eqb_spec p 0) as [|_]; [lia|]. cbn [negb orb].
  destruct (Z.ltb_spec p 1) as [|_]; [lia|]. cbn [orb].
  rewrite Z.gtb_ltb. destruct (Z.ltb_spec 65535 p) as [|_]; [lia|].
  cbn [fst snd]. split; [reflexivity|].
  match goal with |- ?w = false => destruct w eqn:Hw end; [|reflexivity]. exfalso.
  apply whitelisted_iff in Hw.
  assert (Hold' : ~ (In (port r) (ports (loadWhitelist st)) \/
                     In (process r) (processes (loadWhitelist st)))).
  { intros H. apply whitelisted_iff in H. congruence. }
  destruct Hw as [Hw|Hw].
  - apply In_ports_addToWhitelist in Hw. tauto.
  - apply In_processes_addToWhitelist in Hw. destruct Hw as [[[= Heq] _]|Hw]; [|tauto].
    rewrite Hr in Heq.
    assert (clean name = true) by (rewrite <- Heq; apply sanitizeInput_clean).
    congruence.
Qed.

Definition kworker : PortRecord := mkPort 9100 "tcp" "kworker/0:1" (Some 77) "0.0.0.0" 0.

Lemma post_whitelist_unclean_name_witness :
  fst (serve (PostWhitelist (JObj [("port", JNum 22); ("process", JStr "kworker/0:1")]))
         initial) = ok /\
  whitelisted
    (loadWhitelist
       (snd (serve (PostWhitelist (JObj [("port", JNum 22); ("process", JStr "kworker/0:1")]))
               initial))) kworker = false.
Proof.
  apply (post_whitelist_unclean_name
           (JObj [("port", JNum 22); ("process", JStr "kworker/0:1")])
           22 "kworker/0:1" initial kworker);
    try reflexivity; try lia; discriminate.
Defined.

End ApiFacts.

(** ** The port cache across calls *)

Module CacheFacts.
Import PortMonitor AcquisitionFacts Connections.
Local Open Scope Z_scope.

(** Whatever a call returns is what the cache holds after it. *)
Lemma getActivePorts_result_cached clock ss netstat st :
  fst (getActivePorts clock ss netstat st)
  = Returned (cachedPorts (snd (getActivePorts clock ss netstat st))).
Proof.
  unfold getActivePorts, getActivePorts_body.
  destruct (_ && _); [reflexivity|].
  destruct ss as [out|e1]; cbn [try_catch]; [reflexivity|].
  destruct netstat as [out|e2]; reflexivity.
Qed.

(** X20.  A call in which both commands fail returns the list that the
    previous call returned, whatever that call did and however long ago
    it was made. *)
Theorem failure_returns_previous_result
    (clock1 clock2 : Clock) (ss netstat : Outcome string) (e1 e2 : string) (st : State) :
  fst (getActivePorts clock2 (Thrown e1) (Thrown e2)
         (snd (getActivePorts clock1 ss netstat st)))
  = fst (getActivePorts clock1 ss netstat st).
Proof.
  rewrite (getActivePorts_result_cached clock1).
  generalize (snd (getActivePorts clock1 ss netstat st)). intros st'.
  unfold getActivePorts. now rewrite getActivePorts_body_failure.
Qed.

(** X21.  Once a call has returned a non-empty list, every call made less
    than [cacheTimeout] after the instant recorded in [lastUpdate] returns
    that list and leaves the instance alone, whatever the commands would
    print. *)
Theorem fresh_cache_is_served
    (clock1 clock2 : Clock) (ss1 netstat1 ss2 netstat2 : Outcome string)
    (st : State) (ports : list PortRecord) :
  let st1 := snd (getActivePorts clock1 ss1 netstat1 st) in
  fst (getActivePorts clock1 ss1 netstat1 st) = Returned ports ->
  ports <> [] ->
  clock2 0%nat - lastUpdate st1 < cacheTimeout st1 ->
  getActivePorts clock2 ss2 netstat2 st1 = (Returned ports, st1).
Proof.
  intros st1 Hret Hne Hfresh.
  rewrite getActivePorts_result_cached in Hret. fold st1 in Hret.
  injection Hret as Hc. rewrite <- Hc.
  apply getActivePorts_fresh_cache; [assumption|]. now rewrite Hc.
Qed.

Lemma fresh_cache_is_served_witness :
  getActivePorts (fun _ => 3000) (Thrown "ss") (Thrown "netstat")
    (snd (getActivePorts (fun _ => 1000) (Returned ParserFacts.ss_sshd)
            (Thrown "netstat") initial))
  = (Returned [mkPort 22 "tcp" "sshd" (Some 1234) "0.0.0.0" 1000],
     snd (getActivePorts (fun _ => 1000) (Returned ParserFacts.ss_sshd)
            (Thrown "netstat") initial)).
Proof.
  apply (fresh_cache_is_served (fun _ => 1000) (fun _ => 3000)
           (Returned ParserFacts.ss_sshd) (Thrown "netstat")
           (Thrown "ss") (Thrown "netstat") initial).
  - vm_compute. reflexivity.
  - discriminate.
  - vm_compute. reflexivity.
Defined.



(** X23.  [getActiveConnections] has no timeout: it returns the parse of
    what the first succeeding command prints and caches it, and when both
    commands fail it returns the list that the previous call returned. *)
Theorem getActiveConnections_fallback
    (clock1 clock2 : Clock) (ss netstat : Outcome string) (e1 e2 : string)
    (cached : list Connection) :
  fst (getActiveConnections clock1 ss netstat cached)
  = snd (getActiveConnections clock1 ss netstat cached) /\
  fst (getActiveConnections clock2 (Thrown e1) (Thrown e2)
         (snd (getActiveConnections clock1 ss netstat cached)))
  = fst (getActiveConnections clock1 ss netstat cached) /\
  (forall stdout, try_catch ss (fun _ => netstat) = Returned stdout ->
     fst (getActiveConnections clock1 ss netstat cached)
     = parseConnectionOutput clock1 stdout).
Proof.
  unfold getActiveConnections.
  destruct (try_catch ss (fun _ => netstat)) as [out|e]; cbn [try_catch fst snd].
  - repeat split. now intros stdout [= <-].
  - repeat split. discriminate.
Qed.

End CacheFacts.

(** ** The connection parser *)

Module ConnectionFacts.
Import Regex RegexFacts ParserFacts Connections.
Local Open Scope Z_scope.

Lemma matches_Or_inv r1 r2 w c c' :
  matches (Or r1 r2) w c c' -> matches r1 w c c' \/ matches r2 w c c'.
Proof. intros H. invert H; auto. Qed.

Lemma matches_Eps_inv w c c' : matches Eps w c c' -> w = [] /\ c' = c.
Proof. intros H. invert H. auto. Qed.

Lemma matches_host i w c c' :
  matches (host i) w c c' -> w <> [] /\ c' = (i, w) :: c.
Proof.
  intros H. apply matches_Group_inv in H. destruct H as (c0 & H & ->).
  apply matches_Or_inv in H.
  destruct H as [H|H]; apply matches_Plus_inv in H; destruct H as (Hne & _ & ->);
    now split.
Qed.

Lemma matches_number i w c c' :
  matches (Group i (Plus digit)) w c c' ->
  (w <> [] /\ forallb Js.is_digit w = true) /\ c' = (i, w) :: c.
Proof.
  intros H. apply matches_Group_inv in H. destruct H as (c0 & H & ->).
  apply matches_Plus_inv in H. destruct H as (Hne & Hd & ->). auto.
Qed.

(** The captures of any match of [connectionPattern]: the four address
    groups always take part, the state group may not. *)
Lemma connectionPattern_captures line m :
  exec connectionPattern line = Some m ->
  exists w1 w2 w3 w4 tail,
    m = tail ++ [(4%nat, w4); (3%nat, w3); (2%nat, w2); (1%nat, w1)] /\
    w1 <> [] /\ w3 <> [] /\
    (w2 <> [] /\ forallb Js.is_digit w2 = true) /\
    (w4 <> [] /\ forallb Js.is_digit w4 = true) /\
    (tail = [] \/ exists w5, w5 <> [] /\ tail = [(5%nat, w5)]).
Proof.
  intros Hexec. apply search_sound in Hexec.
  destruct Hexec as (pre & w & post & _ & Hm).
  unfold connectionPattern in Hm. cbn [seq] in Hm.
  apply matches_Cat_inv in Hm. destruct Hm as (w1 & x1 & c1 & _ & H1 & Hm).
  apply matches_host in H1. destruct H1 as [Hw1 ->].
  apply matches_Cat_inv in Hm. destruct Hm as (u1 & x2 & c2 & _ & Hl & Hm).
  apply matches_Lit_inv in Hl. destruct Hl as [_ ->].
  apply matches_Cat_inv in Hm. destruct Hm as (w2 & x3 & c3 & _ & H2 & Hm).
  apply matches_number in H2. destruct H2 as [Hw2 ->].
  apply matches_Cat_inv in Hm. destruct Hm as (u2 & x4 & c4 & _ & Hs & Hm).
  apply matches_Plus_inv in Hs. destruct Hs as (_ & _ & ->).
  apply matches_Cat_inv in Hm. destruct Hm as (w3 & x5 & c5 & _ & H3 & Hm).
  apply matches_host in H3. destruct H3 as [Hw3 ->].
  apply matches_Cat_inv in Hm. destruct Hm as (u3 & x6 & c6 & _ & Hl & Hm).
  apply matches_Lit_inv in Hl. destruct Hl as [_ ->].
  apply matches_Cat_inv in Hm. destruct Hm as (w4 & x7 & c7 & _ & H4 & Hm).
  apply matches_number in H4. destruct H4 as [Hw4 ->].
  apply matches_Cat_inv in Hm. destruct Hm as (u4 & x8 & c8 & _ & Hs & Hm).
  apply matches_Plus_inv in Hs. destruct Hs as (_ & _ & ->).
  apply matches_Or_inv in Hm. destruct Hm as [Hm|Hm].
  - apply matches_Group_inv in Hm. destruct Hm as (c0 & Hm & ->).
    apply matches_Plus_inv in Hm. destruct Hm as (Hw5 & _ & ->).
    exists w1, w2, w3, w4, [(5%nat, x8)].
    split; [reflexivity|]. do 4 (split; [assumption|]).
    right. exists x8. auto.
  - apply matches_Eps_inv in Hm. destruct Hm as [_ ->].
    exists w1, w2, w3, w4, [].
    split; [reflexivity|]. do 4 (split; [assumption|]). now left.
Qed.

Lemma str_nonempty (w : list ascii) : w <> [] -> Js.str w <> "".
Proof. destruct w; [congruence|discriminate]. Qed.

Definition well_formed (c : Connection) : Prop :=
  (exists a, localIp c = Some a /\ a <> "") /\
  (exists n, localPort c = Some n /\ 0 <= n) /\
  (exists a, remoteIp c = Some a /\ a <> "") /\
  (exists n, remotePort c = Some n /\ 0 <= n) /\
  state c <> "".

Lemma parseConnectionLine_well_formed clock st line :
  Forall well_formed (parsed st) ->
  Forall well_formed (parsed (parseConnectionLine clock st line)).
Proof.
  intros Hst. unfold parseConnectionLine.
  destruct (_ || _); [assumption|].
  destruct (exec connectionPattern line) as [m|] eqn:Hexec; [|assumption].
  cbn [parsed]. apply Forall_app. split; [assumption|].
  constructor; [|constructor].
  apply connectionPattern_captures in Hexec.
  destruct Hexec as (w1 & w2 & w3 & w4 & tail & -> & Hw1 & Hw3 & [Hn2 Hd2] & [Hn4 Hd4] & Htail).
  assert (Hg : forall i, (1 <= i <= 4)%nat ->
             group i (tail ++ [(4%nat, w4); (3%nat, w3); (2%nat, w2); (1%nat, w1)])
             = group i [(4%nat, w4); (3%nat, w3); (2%nat, w2); (1%nat, w1)]).
  { intros i Hi. destruct Htail as [->|(w5 & _ & ->)]; [reflexivity|].
    unfold group. cbn [app List.find fst].
    destruct i as [|[|[|[|[|i]]]]]; try lia; reflexivity. }
  unfold well_formed. cbn [localIp localPort remoteIp remotePort state].
  rewrite !Hg by lia. unfold group. cbn [List.find fst snd Nat.eqb fmap option_fmap option_map
    mbind option_bind].
  rewrite !parseInt_digits by assumption.
  repeat split.
  - exists (Js.str w1). split; [reflexivity|now apply str_nonempty].
  - exists (dec w2). split; [reflexivity|now apply dec_nonneg].
  - exists (Js.str w3). split; [reflexivity|now apply str_nonempty].
  - exists (dec w4). split; [reflexivity|now apply dec_nonneg].
  - unfold Js.or_else. destruct (default "" _); cbn; discriminate.
Qed.

Lemma parseLoop_well_formed clock ls st :
  Forall well_formed (parsed st) ->
  Forall well_formed (parsed (fold_left (parseConnectionLine clock) ls st)).
Proof.
  revert st. induction ls as [|l ls IH]; intros st Hst; [assumption|].
  cbn [fold_left]. apply IH. now apply parseConnectionLine_well_formed.
Qed.

(** X24.  Every connection returned by [parseConnectionOutput] has both
    addresses defined and non-empty, both ports defined numbers that are
    not negative (never [NaN]), and a non-empty state. *)
Theorem parseConnectionOutput_fields (clock : Clock) (text : string) (c : Connection) :
  In c (parseConnectionOutput clock text) ->
  (exists a, localIp c = Some a /\ a <> "") /\
  (exists n, localPort c = Some n /\ 0 <= n) /\
  (exists a, remoteIp c = Some a /\ a <> "") /\
  (exists n, remotePort c = Some n /\ 0 <= n) /\
  state c <> "".
Proof.
  intros Hin. unfold parseConnectionOutput in Hin.
  pose proof (parseLoop_well_formed clock (PortMonitor.lines text) (mkConnectionParse [] 0)
                (Forall_nil_2 _)) as Hall.
  rewrite Forall_forall in Hall. apply (Hall c). now apply list_elem_of_In.
Qed.

Definition netstat_established : string :=
  "tcp        0      0 192.168.1.100:22        192.168.1.200:12345     ESTABLISHED".

Definition ssh_session : Connection :=
  mkConnection (Some "192.168.1.100") (Some 22) (Some "192.168.1.200") (Some 12345)
               "ESTABLISHED" 7.

Example parse_netstat_established :
  parseConnectionOutput (fun _ => 7) netstat_established = [ssh_session].
Proof. vm_compute. reflexivity. Qed.

Lemma parseConnectionOutput_fields_witness :
  In ssh_session (parseConnectionOutput (fun _ => 7) netstat_established) /\
  ((exists a, localIp ssh_session = Some a /\ a <> "") /\
   (exists n, localPort ssh_session = Some n /\ 0 <= n) /\
   (exists a, remoteIp ssh_session = Some a /\ a <> "") /\
   (exists n, remotePort ssh_session = Some n /\ 0 <= n) /\
   state ssh_session <> "").
Proof.
  assert (H : In ssh_session (parseConnectionOutput (fun _ => 7) netstat_established)).
  { vm_compute. left. reflexivity. }
  split; [exact H|].
  exact (parseConnectionOutput_fields (fun _ => 7) netstat_established ssh_session H).
Defined.

End ConnectionFacts.

(** ** Retention under failures, repetition and resolution *)

Module CleanupFacts.
Import Database DatabaseOps RetentionFacts.
Local Open Scope Z_scope.

(** X25.  A failing statement of [cleanup] costs only its own table: each
    of the four tables is either left as it was, when its statement
    fails, or purged as if nothing had failed; [cleanup] adds no row and
    a failure of [VACUUM] changes nothing. *)
Theorem cleanup_failure_is_per_table
    (fails : nat -> bool) (now : Z) (daysToKeep : N) (db : Db) :
  let h := horizon now daysToKeep in
  cleanup fails now daysToKeep db
  = mkDb
      (if fails 0%nat then port_snapshots db
       else delete_where (fun r => ps_timestamp r <? h) (port_snapshots db))
      (if fails 1%nat then traffic_stats db
       else delete_where (fun r => ts_timestamp r <? h) (traffic_stats db))
      (if fails 2%nat then security_alerts db
       else delete_where (fun r => (al_resolved r =? 1) && (al_timestamp r <? h))
                         (security_alerts db))
      (if fails 3%nat then connections db
       else delete_where (fun r => cn_timestamp r <? h) (connections db)).
Proof.
  intros h. unfold cleanup, queries, cleanupLoop, run.
  destruct db as [ps ts al cn].
  destruct (fails 0%nat), (fails 1%nat), (fails 2%nat), (fails 3%nat), (fails 4%nat);
    reflexivity.
Qed.

Lemma delete_where_twice {A : Type} (c1 c2 : A -> bool) (rows : list A) :
  (forall r, c1 r = true -> c2 r = true) ->
  delete_where c2 (delete_where c1 rows) = delete_where c2 rows.
Proof.
  intros Himp. unfold delete_where.
  induction rows as [|r rows IH]; cbn [List.filter]; [reflexivity|].
  destruct (c1 r) eqn:H1; cbn [negb].
  - rewrite (Himp r H1). cbn [negb]. exact IH.
  - cbn [List.filter]. destruct (c2 r); cbn [negb]; [exact IH|]. now rewrite IH.
Qed.

(** X26.  Running [cleanup] again later (with the same retention, all
    statements succeeding) gives the database that the later run alone
    would give; in particular running it twice at the same instant is the
    same as running it once. *)
Theorem cleanup_twice
    (fails1 fails2 : nat -> bool) (now1 now2 : Z) (daysToKeep : N) (db : Db) :
  (forall i, (i < 5)%nat -> fails1 i = false) ->
  (forall i, (i < 5)%nat -> fails2 i = false) ->
  now1 <= now2 ->
  cleanup fails2 now2 daysToKeep (cleanup fails1 now1 daysToKeep db)
  = cleanup fails2 now2 daysToKeep db.
Proof.
  intros H1 H2 Hle.
  rewrite (cleanup_succeeding fails2 now2 daysToKeep db H2).
  rewrite (cleanup_succeeding fails2 now2 daysToKeep _ H2).
  rewrite (cleanup_succeeding fails1 now1 daysToKeep db H1).
  cbn [port_snapshots traffic_stats security_alerts connections].
  assert (Hh : horizon now1 daysToKeep <= horizon now2 daysToKeep)
    by (unfold horizon; lia).
  f_equal; apply delete_where_twice; intros r Hr.
  - apply Z.ltb_lt in Hr. apply Z.ltb_lt. lia.
  - apply Z.ltb_lt in Hr. apply Z.ltb_lt. lia.
  - apply andb_true_iff in Hr. destruct Hr as [Hres Hr].
    apply Z.ltb_lt in Hr. rewrite Hres. apply Z.ltb_lt. lia.
  - apply Z.ltb_lt in Hr. apply Z.ltb_lt. lia.
Qed.

Lemma cleanup_twice_witness :
  cleanup (fun _ => false) (hundred_days + 86400) 30
    (cleanup (fun _ => false) hundred_days 30
       (mkDb [] [] [old_unresolved; old_resolved] []))
  = cleanup (fun _ => false) (hundred_days + 86400) 30
      (mkDb [] [] [old_unresolved; old_resolved] []).
Proof.
  apply cleanup_twice; [reflexivity|reflexivity|unfold hundred_days; lia].
Defined.

Lemma In_resolve_where alertId rows r :
  In r (resolve_where alertId rows) ->
  (al_id r = alertId -> al_resolved r = 1) /\
  (al_id r <> alertId -> In r rows) /\
  exists r0, In r0 rows /\ al_id r0 = al_id r /\ al_timestamp r0 = al_timestamp r.
Proof.
  unfold resolve_where. intros Hin. apply in_map_iff in Hin.
  destruct Hin as (r0 & Heq & Hin).
  destruct (Z.eqb_spec (al_id r0) alertId) as [Hid|Hid]; subst r; cbn.
  - repeat split; [lia|]. exists r0. auto.
  - repeat split; [congruence|auto|]. exists r0. auto.
Qed.

Lemma resolve_where_other alertId rows r :
  al_id r <> alertId -> In r rows -> In r (resolve_where alertId rows).
Proof.
  intros Hid Hin. unfold resolve_where. apply in_map_iff. exists r.
  split; [|assumption]. destruct (Z.eqb_spec (al_id r) alertId); congruence.
Qed.

(** X27.  Resolving an alert is what makes it eligible for deletion: after
    a successful [resolveAlert(id)], a successful [cleanup] leaves no alert
    with that id that is older than the horizon, while the alerts with
    other ids fare exactly as they would without the resolution; the
    other tables are not touched by [resolveAlert]. *)
Theorem resolved_alert_is_purged
    (fails : nat -> bool) (now : Z) (daysToKeep : N) (alertId : Z) (db : Db) :
  (forall i, (i < 5)%nat -> fails i = false) ->
  let resolved := snd (resolveAlert false alertId db) in
  let db' := cleanup fails now daysToKeep resolved in
  (forall r, In r (security_alerts db') -> al_id r = alertId ->
     horizon now daysToKeep <= al_timestamp r /\ al_resolved r = 1) /\
  (forall r, al_id r <> alertId ->
     (In r (security_alerts db') <->
      In r (security_alerts (cleanup fails now daysToKeep db)))) /\
  port_snapshots resolved = port_snapshots db /\
  traffic_stats resolved = traffic_stats db /\
  connections resolved = connections db.
Proof.
  intros Hok resolved db'.
  subst db'. rewrite !cleanup_succeeding by assumption.
  subst resolved. unfold resolveAlert, run. cbn [snd try_catch security_alerts
    port_snapshots traffic_stats connections].
  split; [|split; [|repeat split]].
  - intros r Hin Hid. apply delete_where_In in Hin. destruct Hin as [Hin Hcond].
    apply In_resolve_where in Hin. destruct Hin as (Hres & _ & _).
    specialize (Hres Hid). split; [|assumption].
    rewrite Hres in Hcond. cbn in Hcond. apply Z.ltb_ge in Hcond. lia.
  - intros r Hid. rewrite !delete_where_In. split; intros [Hin Hcond];
      (split; [|assumption]).
    + apply In_resolve_where in Hin. now apply Hin.
    + now apply resolve_where_other.
Qed.

Lemma resolved_alert_is_purged_witness :
  let resolved :=
    snd (resolveAlert false (al_id old_unresolved)
           (mkDb [] [] [old_unresolved; old_resolved] [])) in
  let db' := cleanup (fun _ => false) hundred_days 30 resolved in
  (forall r, In r (security_alerts db') -> al_id r = al_id old_unresolved ->
     horizon hundred_days 30 <= al_timestamp r /\ al_resolved r = 1) /\
  (forall r, al_id r <> al_id old_unresolved ->
     (In r (security_alerts db') <->
      In r (security_alerts
              (cleanup (fun _ => false) hundred_days 30
                 (mkDb [] [] [old_unresolved; old_resolved] []))))) /\
  port_snapshots resolved = port_snapshots (mkDb [] [] [old_unresolved; old_resolved] []) /\
  traffic_stats resolved = traffic_stats (mkDb [] [] [old_unresolved; old_resolved] []) /\
  connections resolved = connections (mkDb [] [] [old_unresolved; old_resolved] []).
Proof.
  apply (resolved_alert_is_purged (fun _ => false) hundred_days 30
           (al_id old_unresolved) (mkDb [] [] [old_unresolved; old_resolved] [])).
  reflexivity.
Defined.

Example resolved_then_purged :
  security_alerts
    (cleanup (fun _ => false) hundred_days 30
       (snd (resolveAlert false (al_id old_unresolved)
               (mkDb [] [] [old_unresolved] []))))
  = [].
Proof. vm_compute. reflexivity. Qed.

End CleanupFacts.

(** ** The origin of a connection *)

Module GeoFacts.
Import GeoAnalysis ClassifierFacts.

Section Origin.
Context {C L : Type} (remoteIp : C -> string) (lookup : string -> option (Geo L)).

(** X28.  [analyzeConnection] returns at most one alert.  It returns one
    exactly when the remote address is not private, the lookup finds it,
    and its country is in one of the two lists: severity [high] for the
    first list and [medium] for the second.  For a private address
    (which every address beginning with 10., 172. or 192.168. is taken to
    be) it returns none and stores no [geoData], whatever the lookup
    would say. *)
Theorem analyzeConnection_alerts (connection : C) :
  let result := analyzeConnection remoteIp lookup connection in
  (length (snd result) <= 1)%nat /\
  (forall a, In a (snd result) ->
     isPrivateIP (remoteIp connection) = false /\
     lookup (remoteIp connection) = Some (ga_geoData a) /\
     fst result = Some (ga_geoData a) /\
     ((In (country (ga_geoData a)) highRisk /\
       ga_type a = suspicious_country /\ ga_severity a = high) \/
      (In (country (ga_geoData a)) mediumRisk /\
       ga_type a = medium_risk_country /\ ga_severity a = medium))) /\
  (forall geo, isPrivateIP (remoteIp connection) = false ->
     lookup (remoteIp connection) = Some geo ->
     In (country geo) (highRisk ++ mediumRisk) -> snd result <> []) /\
  (isPrivateIP (remoteIp connection) = true -> result = (None, [])).
Proof.
  intros result. subst result. unfold analyzeConnection.
  destruct (isPrivateIP (remoteIp connection)); cbn [negb].
  { repeat split; cbn; try lia; try contradiction; discriminate. }
  destruct (lookup (remoteIp connection)) as [geo|].
  2:{ repeat split; cbn; try lia; try contradiction; discriminate. }
  cbn [fst snd].
  assert (Hdisj : SecurityAnalyzer.includes_str highRisk (country geo) = true ->
                  SecurityAnalyzer.includes_str mediumRisk (country geo) = true -> False).
  { intros Hh Hm. apply includes_str_In in Hh, Hm. cbn in Hh, Hm.
    intuition congruence. }
  destruct (SecurityAnalyzer.includes_str highRisk (country geo)) eqn:Hh,
           (SecurityAnalyzer.includes_str mediumRisk (country geo)) eqn:Hm;
    try (exfalso; now apply Hdisj); cbn [app length].
  - split; [lia|]. split; [|split; [discriminate|discriminate]].
    intros a [<-|[]]. cbn. apply includes_str_In in Hh. auto 10.
  - split; [lia|]. split; [|split; [discriminate|discriminate]].
    intros a [<-|[]]. cbn. apply includes_str_In in Hm. auto 10.
  - split; [lia|]. split; [intros a []|]. split; [|discriminate].
    intros geo' _ [= <-] Hin. apply in_app_or in Hin.
    destruct Hin as [Hin|Hin]; apply includes_str_In in Hin; congruence.
Qed.

End Origin.

End GeoFacts.
